(** * A shallow embedding of [interpreter.py] (a Brainfuck interpreter)

    The development follows the layout of the source: the [Memory] class
    (the tape), [getNestingLevels] (the depth analyzer), [findLevelClosing]
    and [findLevelOpening] (the jump resolver) and [brainfuck] (the
    execution engine).  Python exceptions are values of [exn]; a mutated
    object keeps its mutations when an exception propagates, so stateful
    code lives in a state monad whose state survives a [Raise]. *)

From Stdlib Require Import ZArith Lia String Ascii DecimalString.
From stdpp Require Import base decidable option list.

Open Scope Z_scope.

(** ** Python values *)

Module Py.

(** A Python [str] is a sequence of Unicode code points. *)
Abbreviation char := Z (only parsing).
Abbreviation str := (list Z) (only parsing).

(** [ord] of a character written as a Rocq literal, and the [str] of a
    Rocq string literal. *)
Definition ch (a : ascii) : char := Z.of_N (N_of_ascii a).
Definition lit (s : string) : str := map ch (list_ascii_of_string s).

(** The exceptions the program can raise.  The source raises plain
    [Exception]s told apart by their message; the constructors carry the
    names the specification gives them.
    - [EmptyProgram]: "text length cannot be zero"
    - [UnmatchedClosingBracket i]: "Unmatched closing bracket at position i"
    - [UnmatchedOpeningBracket i]: "Unmatched opening bracket at position i"
    - [UnknownInstruction c]: "Unknown brainfuck command 'c'"
    - [InvalidMemoryArgument]: "Argument memory must be an instance of
      Memory class"
    The others are raised by the Python runtime itself. *)
Inductive exn : Type :=
  | EmptyProgram
  | UnmatchedClosingBracket (pos : Z)
  | UnmatchedOpeningBracket (pos : Z)
  | UnknownInstruction (c : char)
  | InvalidMemoryArgument
  | IndexError
  | TypeError
  | ValueError
  | EOFError.

Inductive result (A : Type) : Type :=
  | Ok (a : A)
  | Raise (e : exn).
Arguments Ok {A} a.
Arguments Raise {A} e.

#[global] Instance result_ret : MRet result := λ A a, Ok a.
#[global] Instance result_bind : MBind result := λ A B f r,
  match r with
  | Ok a => f a
  | Raise e => Raise e
  end.

(** Code that mutates an object of type [S]: the state is threaded
    through, and it is still there after an exception. *)
Definition M (S A : Type) : Type := S → result A * S.

#[global] Instance M_ret {S} : MRet (M S) := λ A a s, (Ok a, s).
#[global] Instance M_bind {S} : MBind (M S) := λ A B f m s,
  match m s with
  | (Ok a, s') => f a s'
  | (Raise e, s') => (Raise e, s')
  end.

Definition get {S} : M S S := λ s, (Ok s, s).
Definition gets {S A} (f : S → A) : M S A := λ s, (Ok (f s), s).
Definition put {S} (s : S) : M S () := λ _, (Ok (), s).
Definition raise {S A} (e : exn) : M S A := λ s, (Raise e, s).
Definition lift {S A} (r : result A) : M S A := λ s, (r, s).

(** Subscripting a list with a Python [int]: a negative index counts from
    the end, anything outside [-len, len) is an [IndexError]. *)
Definition index_of (len : nat) (k : Z) : option nat :=
  if bool_decide (0 ≤ k < Z.of_nat len) then Some (Z.to_nat k)
  else if bool_decide (- Z.of_nat len ≤ k < 0) then Some (Z.to_nat (Z.of_nat len + k))
  else None.

Definition getitem {A} (l : list A) (k : Z) : result A :=
  match index_of (length l) k ≫= (l !!.) with
  | Some x => Ok x
  | None => Raise IndexError
  end.

Definition setitem {A} (l : list A) (k : Z) (x : A) : result (list A) :=
  match index_of (length l) k with
  | Some n => Ok (<[n:=x]> l)
  | None => Raise IndexError
  end.

(** [str(n)] for an [int]: its decimal numeral. *)
Definition str_of_int (n : Z) : str :=
  lit (NilZero.string_of_int (Z.to_int n)).

(** [chr(n)]: the one-character string of code point [n]. *)
Definition chr (n : Z) : result str :=
  if bool_decide (0 ≤ n ≤ 1114111) then Ok [n] else Raise ValueError.

(** [for i in r: s = body(i, s)] *)
Fixpoint for_each {S} (r : list nat) (body : nat → S → result S) (s : S)
  : result S :=
  match r with
  | [] => Ok s
  | i :: r' => s' ← body i s; for_each r' body s'
  end.

(** [for i in r: body(i)], where the body may [return] a value out of the
    enclosing function ([Some]) or fall through to the next round
    ([None]). *)
Fixpoint for_return {R} (r : list nat) (body : nat → result (option R))
  : result (option R) :=
  match r with
  | [] => Ok None
  | i :: r' =>
      o ← body i;
      match o with
      | Some x => Ok (Some x)
      | None => for_return r' body
      end
  end.

(** [range(a, b)] and [range(a, b, -1)] *)
Definition range (a b : nat) : list nat := seq a (b - a).
Definition range_down (a b : nat) : list nat := rev (seq (S b) (a - b)).

(** Characters that [str.rstrip()] removes. *)
Definition isspace (c : char) : bool :=
  bool_decide (9 ≤ c ≤ 13) || bool_decide (28 ≤ c ≤ 32)
  || bool_decide (c = 133) || bool_decide (c = 160)
  || bool_decide (c = 5760) || bool_decide (8192 ≤ c ≤ 8202)
  || bool_decide (c = 8232) || bool_decide (c = 8233)
  || bool_decide (c = 8239) || bool_decide (c = 8287)
  || bool_decide (c = 12288).

Fixpoint rstrip (s : str) : str :=
  match s with
  | [] => []
  | c :: s' =>
      match rstrip s' with
      | [] => if isspace c then [] else [c]
      | t => c :: t
      end
  end.

End Py.
Import Py.

(** ** The tape: [class Memory] *)

Record Memory : Type := mkMemory {
  cells : list Z;
  pointer : Z;
  value : Z
}.

Module Mem.

(** [Memory.__init__(self, size)]; [[0] * size] is empty for [size <= 0]. *)
Definition init (size : Z) : Memory :=
  {| cells := replicate (Z.to_nat size) 0; pointer := 0; value := 0 |}.

(** [setCellTo(self, value)] *)
Definition setCellTo (v : Z) : M Memory () :=
  self ← get;
  cells' ← lift (setitem (cells self) (pointer self) (Z.max v 0));
  put {| cells := cells'; pointer := pointer self; value := value self |};;
  self ← get;
  x ← lift (getitem (cells self) (pointer self));
  put {| cells := cells self; pointer := pointer self; value := x |}.

(** [setPointerTo(self, cell)] *)
Definition setPointerTo (cell : Z) : M Memory () :=
  self ← get;
  put {| cells := cells self; pointer := Z.max cell 0; value := value self |};;
  self ← get;
  x ← lift (getitem (cells self) (pointer self));
  put {| cells := cells self; pointer := pointer self; value := x |}.

(** [setPointer(self, increment)] *)
Definition setPointer (increment : Z) : M Memory () :=
  self ← get;
  setPointerTo (pointer self + increment).

(** [setValue(self, increment)] *)
Definition setValue (increment : Z) : M Memory () :=
  self ← get;
  x ← lift (getitem (cells self) (pointer self));
  setCellTo (x + increment).

End Mem.

(** ** Input and output

    The input source is the list of lines still to be read; the output
    sink is the string of everything written so far. *)

Record world : Type := mkWorld {
  mem : Memory;
  stdin : list str;
  stdout : str
}.

(** A method of the tape, run on the tape of the world. *)
Definition on_mem {A} (m : M Memory A) : M world A := λ w,
  let (r, m') := m (mem w) in
  (r, {| mem := m'; stdin := stdin w; stdout := stdout w |}).

(** [print(s, end = "")] *)
Definition write (s : str) : M world () := λ w,
  (Ok (), {| mem := mem w; stdin := stdin w; stdout := stdout w ++ s |}).

(** [input("")]: the next line without its newline, [EOFError] when the
    input is exhausted. *)
Definition input : M world str := λ w,
  match stdin w with
  | [] => (Raise EOFError, w)
  | line :: rest =>
      (Ok line, {| mem := mem w; stdin := rest; stdout := stdout w |})
  end.

(** The variable [inputValue] of [Memory.read] holds a [str] first and may
    be rebound to an [int]. *)
Inductive pyval : Type :=
  | VStr (s : str)
  | VInt (n : Z).

(** [v[0]] *)
Definition first_item (v : pyval) : result pyval :=
  match v with
  | VStr s => c ← getitem s 0; Ok (VStr [c])
  | VInt _ => Raise TypeError
  end.

(** [ord(v)] *)
Definition ord (v : pyval) : result Z :=
  match v with
  | VStr [c] => Ok c
  | _ => Raise TypeError
  end.

Module IO.

(** [Memory.print(self)] *)
Definition print : M world () :=
  self ← gets mem;
  let output := value self in
  s ← (if bool_decide (output > 9) then lift (chr output)
       else mret (str_of_int output));
  write s.

(** [Memory.read(self)] *)
Definition read : M world () :=
  line ← input;
  let inputValue := VStr line in
  let inputValue :=
    if bool_decide (length line = 0%nat) then VInt 0 else inputValue in
  inputValue ← lift (first_item inputValue);
  inputValue ← lift (ord inputValue);
  on_mem (Mem.setCellTo inputValue).

End IO.

(** ** The depth analyzer: [getNestingLevels]

    The check [isinstance(text, str)] is the type of [text].  The default
    values of [opening] and [closing] are passed by the caller. *)

Record scan : Type := mkScan {
  depth : Z;
  lastopen : Z;
  depths : list Z
}.

(** One round of the loop [for i in range(0, len(text))]. *)
Definition getNestingLevels_body (text opening closing : str)
    (i : nat) (s : scan) : result scan :=
  c ← getitem text (Z.of_nat i);
  let s :=
    if bool_decide ([c] = opening)
    then {| depth := depth s + 1; lastopen := Z.of_nat i; depths := depths s |}
    else s in
  let s :=
    if bool_decide ([c] = closing)
    then {| depth := depth s - 1; lastopen := lastopen s; depths := depths s |}
    else s in
  if bool_decide (depth s < 0)
  then Raise (UnmatchedClosingBracket (Z.of_nat i))
  else
    depths' ← setitem (depths s) (Z.of_nat i) (depth s);
    Ok {| depth := depth s; lastopen := lastopen s; depths := depths' |}.

Definition getNestingLevels (text opening closing : str) : result (list Z) :=
  if bool_decide (length text = 0%nat) then Raise EmptyProgram
  else
    s ← for_each (range 0 (length text))
          (getNestingLevels_body text opening closing)
          {| depth := 0; lastopen := -1;
             depths := replicate (length text) 0 |};
    if bool_decide (depth s > 0)
    then Raise (UnmatchedOpeningBracket (lastopen s))
    else Ok (depths s).

(** ** The jump resolver: [findLevelClosing] and [findLevelOpening]

    The engine only ever asks for positions [0 <= i < len(levels)], so a
    position is a natural number. *)

Definition findLevelClosing (levels : list Z) (i : nat) : result nat :=
  level ← getitem levels (Z.of_nat i);
  let forward := drop i levels in
  r ← for_return (range 1 (length forward))
        (λ f, x ← getitem forward (Z.of_nat f);
              Ok (if bool_decide (x < level) then Some (i + f + 1)%nat
                  else None));
  match r with
  | Some j => Ok j
  | None => Raise (UnmatchedOpeningBracket (Z.of_nat i))
  end.

Definition findLevelOpening (levels : list Z) (i : nat) : result nat :=
  level ← getitem levels (Z.of_nat i);
  let backward := take i levels in
  r ← for_return (range_down (length backward - 1) 0)
        (λ f, x ← getitem backward (Z.of_nat f);
              Ok (if bool_decide (x = level) then Some (f + 2)%nat
                  else None));
  match r with
  | Some j => Ok j
  | None => Raise (UnmatchedClosingBracket (Z.of_nat i))
  end.

(** ** The execution engine: [brainfuck] *)

(** What the caller passes as [memory]: nothing ([None], the default), the
    [Memory] instance held in the world, or some other object. *)
Inductive memory_arg : Type :=
  | MemoryOmitted
  | MemoryGiven
  | NotAMemory.

(** The [while] loop may run forever; the model runs it for at most [fuel]
    rounds. *)
Inductive completion : Type :=
  | Finished
  | OutOfFuel.

(** One round of the loop [while i < len(script)]: the new value of [i]. *)
Definition dispatch (levels : list Z) (script : str) (i : nat)
  : M world nat :=
  l ← lift (getitem levels (Z.of_nat i));
  c ← lift (getitem script (Z.of_nat i));
  if bool_decide (c = ch "+") then
    on_mem (Mem.setValue 1);; mret (S i)
  else if bool_decide (c = ch "-") then
    on_mem (Mem.setValue (-1));; mret (S i)
  else if bool_decide (c = ch ">") then
    on_mem (Mem.setPointer 1);; mret (S i)
  else if bool_decide (c = ch "<") then
    on_mem (Mem.setPointer (-1));; mret (S i)
  else if bool_decide (c = ch ".") then
    IO.print;; mret (S i)
  else if bool_decide (c = ch ",") then
    IO.read;; mret (S i)
  else if bool_decide (c = ch "[") then
    self ← gets mem;
    if bool_decide (value self = 0)
    then lift (findLevelClosing levels i)
    else mret (S i)
  else if bool_decide (c = ch "]") then
    self ← gets mem;
    if bool_decide (value self ≠ 0)
    then lift (findLevelOpening levels i)
    else mret (S i)
  else raise (UnknownInstruction c).

Fixpoint while_loop (fuel : nat) (levels : list Z) (script : str) (i : nat)
  : M world completion :=
  if bool_decide (i < length script)%nat then
    match fuel with
    | O => mret OutOfFuel
    | S fuel' =>
        i' ← dispatch levels script i;
        while_loop fuel' levels script i'
    end
  else mret Finished.

Section Engine.

(** The file system as [brainfuck] sees it: [files text] is [Some lines]
    when [text] names an existing file, [lines] being what [readlines()]
    returns for it. *)
Variable files : str → option (list str).

Definition brainfuck (fuel : nat) (text : str) (memory : memory_arg)
    (memsize : Z) : M world completion :=
  match memory with
  | MemoryOmitted =>
      w ← get;
      put {| mem := Mem.init memsize; stdin := stdin w; stdout := stdout w |}
  | MemoryGiven => mret ()
  | NotAMemory => raise InvalidMemoryArgument
  end;;
  let script :=
    match files text with
    | Some lines => concat (map rstrip lines)
    | None => text
    end in
  levels ← lift (getNestingLevels script (lit "[") (lit "]"));
  while_loop fuel levels script 0.

End Engine.

Definition no_files : str → option (list str) := λ _, None.
Definition fresh_world (lines : list str) : world :=
  {| mem := Mem.init 30000; stdin := lines; stdout := [] |}.

(** * Vocabulary of the properties *)

(** ** The tape *)

(** The pointer designates a cell. *)
Definition in_bounds (m : Memory) : Prop :=
  0 ≤ pointer m < Z.of_nat (length (cells m)).

(** The cached [value] is the cell under the pointer. *)
Definition synced (m : Memory) : Prop :=
  0 ≤ pointer m ∧ cells m !! Z.to_nat (pointer m) = Some (value m).

(** No cell and no pointer is negative. *)
Definition tape_ok (m : Memory) : Prop :=
  Forall (λ x, 0 ≤ x) (cells m) ∧ 0 ≤ pointer m.

(** [actual] is [target] clamped at zero. *)
Definition clamped (target actual : Z) : Prop :=
  (target < 0 → actual = 0) ∧ (0 ≤ target → actual = target).

(** A call of [setValue], [setCellTo] or [setPointer], and a sequence of
    them on one tape.  Each call runs on the tape the call before left
    behind, whether that call returned or raised (a caller may catch the
    exception and go on). *)
Inductive tape_call : Type :=
  | CallSetValue (increment : Z)
  | CallSetCellTo (v : Z)
  | CallSetPointer (increment : Z).

Definition run_call (c : tape_call) : M Memory () :=
  match c with
  | CallSetValue d => Mem.setValue d
  | CallSetCellTo v => Mem.setCellTo v
  | CallSetPointer d => Mem.setPointer d
  end.

Fixpoint run_calls (cs : list tape_call) (m : Memory) : Memory :=
  match cs with
  | [] => m
  | c :: cs' => run_calls cs' (run_call c m).2
  end.




(** ** Brackets *)

Definition is_open (c : char) : bool := bool_decide (c = ch "[").
Definition is_close (c : char) : bool := bool_decide (c = ch "]").

(** What a character adds to the depth: +1 for an open bracket, -1 for a
    close bracket. *)
Definition delta (c : char) : Z :=
  (if is_open c then 1 else 0) - (if is_close c then 1 else 0).

(** Open brackets minus close brackets of a text. *)
Fixpoint depth_after (l : str) : Z :=
  match l with
  | [] => 0
  | c :: l' => delta c + depth_after l'
  end.

(** Bracket matching with a stack: reading [l], whose first character is
    at position [pos], an open bracket pushes its position and a close
    bracket pops its partner.  The result is the stack of the open
    brackets still unmatched, innermost first; there is none when a close
    bracket finds no partner. *)
Definition stack_step (pos : nat) (c : char) (st : list nat)
  : option (list nat) :=
  if is_open c then Some (pos :: st)
  else if is_close c then
    match st with
    | [] => None
    | _ :: st' => Some st'
    end
  else Some st.

Fixpoint open_stack_from (pos : nat) (st : list nat) (l : str)
  : option (list nat) :=
  match l with
  | [] => Some st
  | c :: l' => stack_step pos c st ≫= λ st', open_stack_from (S pos) st' l'
  end.

Definition open_stack (l : str) : option (list nat) :=
  open_stack_from 0 [] l.

(** Every bracket of the text has its partner. *)
Definition balanced (text : str) : Prop := open_stack text = Some [].

(** The number of unmatched open brackets that enclose position [i]: the
    ones still open once the character at [i] has been read. *)
Definition enclosing (text : str) (i : nat) : option Z :=
  (λ st, Z.of_nat (length st)) <$> open_stack (take (S i) text).

(** The partner of the close bracket at position [i]. *)
Definition matching_open (text : str) (i : nat) : option nat :=
  open_stack (take i text) ≫= head.

(** [z] is the position of the last open bracket of [l], or -1 when [l]
    has none. *)
Definition is_last_open (l : str) (z : Z) : Prop :=
  (∀ q : nat, z < Z.of_nat q → l !! q ≠ Some (ch "["))
  ∧ (z = -1 ∨ ∃ p : nat, z = Z.of_nat p ∧ l !! p = Some (ch "[")).

(** The state of the loop of [getNestingLevels] when it has read the
    first [k] characters of [text]. *)
Definition scan_inv (text : str) (k : nat) (s : scan) : Prop :=
  depth s = depth_after (take k text)
  ∧ is_last_open (take k text) (lastopen s)
  ∧ length (depths s) = length text
  ∧ ∀ j, (j < k)%nat → depths s !! j = Some (depth_after (take (S j) text)).

(** The depth recorded just before position [i]: 0 at the start of the
    text. *)
Definition depth_before (levels : list Z) (i : nat) : Z :=
  match i with
  | O => 0
  | S j => default 0 (levels !! j)
  end.

(** The text passes the depth analyzer, with [levels] as depths. *)
Definition validated (text : str) (levels : list Z) : Prop :=
  getNestingLevels text (lit "[") (lit "]") = Ok levels.

(** ** The engine *)

Definition is_instruction (c : char) : bool :=
  bool_decide (c ∈ lit "+-><.,[]").

(** The script [brainfuck] runs for the argument [text]. *)
Definition script_of (files : str → option (list str)) (text : str) : str :=
  match files text with
  | Some lines => concat (map rstrip lines)
  | None => text
  end.

(** The world at the start of the loop: a fresh tape when the caller
    passes none. *)
Definition world_at_start (memory : memory_arg) (memsize : Z) (w : world)
  : world :=
  match memory with
  | MemoryOmitted =>
      {| mem := Mem.init memsize; stdin := stdin w; stdout := stdout w |}
  | _ => w
  end.

(** The first [k] rounds of the loop of [brainfuck], from position [i]:
    the position reached. *)
Fixpoint advance (k : nat) (levels : list Z) (script : str) (i : nat)
  : M world nat :=
  match k with
  | O => mret i
  | S k' =>
      if bool_decide (i < length script)%nat then
        i' ← dispatch levels script i;
        advance k' levels script i'
      else mret i
  end.

(** ** Further vocabulary *)

(** The cell under the pointer. *)
Definition current (m : Memory) : option Z :=
  cells m !! Z.to_nat (pointer m).

(** A call on the tape, then another one. *)
Definition then_call (c1 c2 : M Memory ()) : M Memory () := c1;; c2.

(** The script has no bracket. *)
Definition straight_line (script : str) : Prop :=
  Forall (λ c, c ≠ ch "[" ∧ c ≠ ch "]") script.



(** What one character of a script without brackets does, and what the
    whole script does, character after character. *)
Definition exec_char (c : char) : M world () :=
  if bool_decide (c = ch "+") then on_mem (Mem.setValue 1)
  else if bool_decide (c = ch "-") then on_mem (Mem.setValue (-1))
  else if bool_decide (c = ch ">") then on_mem (Mem.setPointer 1)
  else if bool_decide (c = ch "<") then on_mem (Mem.setPointer (-1))
  else if bool_decide (c = ch ".") then IO.print
  else if bool_decide (c = ch ",") then IO.read
  else raise (UnknownInstruction c).

Fixpoint exec_chars (l : str) : M world () :=
  match l with
  | [] => mret ()
  | c :: l' => exec_char c;; exec_chars l'
  end.

(** How a later world [w'] relates to an earlier one [w]: output was only
    appended, input was only consumed from the front, the tape has kept
    its length, and it has no negative cell or pointer if it had none. *)
Definition effects_ordered (w w' : world) : Prop :=
  stdout w `prefix_of` stdout w'
  ∧ stdin w' `suffix_of` stdin w
  ∧ length (cells (mem w')) = length (cells (mem w))
  ∧ (tape_ok (mem w) → tape_ok (mem w')).

(** * Properties *)

(** ** Subscripting *)

Lemma index_of_nat (len : nat) (k : Z) :
  0 ≤ k < Z.of_nat len → index_of len k = Some (Z.to_nat k).
Proof. intros Hk. unfold index_of. by rewrite bool_decide_eq_true_2. Qed.

Lemma index_of_ge (len : nat) (k : Z) :
  Z.of_nat len ≤ k → index_of len k = None.
Proof.
  intros Hk. unfold index_of.
  rewrite !bool_decide_eq_false_2; [done | lia | lia].
Qed.

Lemma getitem_nat {A} (l : list A) (i : nat) :
  getitem l (Z.of_nat i) =
  match l !! i with Some x => Ok x | None => Raise IndexError end.
Proof.
  unfold getitem. destruct (decide (i < length l)%nat) as [Hi|Hi].
  - rewrite index_of_nat by lia. simpl. by rewrite Nat2Z.id.
  - rewrite index_of_ge by lia. simpl.
    by rewrite (lookup_ge_None_2 l i) by lia.
Qed.

Lemma getitem_Some {A} (l : list A) (k : Z) (x : A) :
  0 ≤ k → l !! Z.to_nat k = Some x → getitem l k = Ok x.
Proof.
  intros Hk Hx. rewrite <- (Z2Nat.id k) by done.
  by rewrite getitem_nat, Hx.
Qed.

Lemma getitem_ge {A} (l : list A) (k : Z) :
  Z.of_nat (length l) ≤ k → getitem l k = Raise IndexError.
Proof. intros Hk. unfold getitem. by rewrite index_of_ge. Qed.

Lemma setitem_nat {A} (l : list A) (i : nat) (x : A) :
  (i < length l)%nat → setitem l (Z.of_nat i) x = Ok (<[i:=x]> l).
Proof.
  intros Hi. unfold setitem. rewrite index_of_nat by lia.
  by rewrite Nat2Z.id.
Qed.

Lemma setitem_lt {A} (l : list A) (k : Z) (x : A) :
  0 ≤ k < Z.of_nat (length l) → setitem l k x = Ok (<[Z.to_nat k:=x]> l).
Proof. intros Hk. unfold setitem. by rewrite index_of_nat. Qed.

Lemma setitem_ge {A} (l : list A) (k : Z) (x : A) :
  Z.of_nat (length l) ≤ k → setitem l k x = Raise IndexError.
Proof. intros Hk. unfold setitem. by rewrite index_of_ge. Qed.

(** ** The tape *)

Module MemFacts.
Import Mem.

Ltac run_tape :=
  unfold setValue, setPointer, setCellTo, setPointerTo;
  unfold mbind, mret, M_bind, M_ret, get, gets, put, lift, raise;
  cbn [cells pointer value fst snd].

Lemma setCellTo_in m v :
  in_bounds m →
  setCellTo v m =
    (Ok (), {| cells := <[Z.to_nat (pointer m) := Z.max v 0]> (cells m);
               pointer := pointer m; value := Z.max v 0 |}).
Proof.
  intros Hb. run_tape. rewrite setitem_lt by done.
  cbn [cells pointer value].
  erewrite getitem_Some; [done | apply Hb |].
  apply list_lookup_insert_eq. red in Hb. lia.
Qed.

Lemma setCellTo_out m v :
  Z.of_nat (length (cells m)) ≤ pointer m →
  setCellTo v m = (Raise IndexError, m).
Proof. intros Hb. run_tape. by rewrite setitem_ge. Qed.

Lemma setValue_in m d x :
  in_bounds m → cells m !! Z.to_nat (pointer m) = Some x →
  setValue d m =
    (Ok (), {| cells := <[Z.to_nat (pointer m) := Z.max (x + d) 0]> (cells m);
               pointer := pointer m; value := Z.max (x + d) 0 |}).
Proof.
  intros Hb Hx. rewrite <- (setCellTo_in m (x + d)) by done.
  unfold setValue, mbind, M_bind, get, lift.
  erewrite getitem_Some; [done | apply Hb | done].
Qed.

Lemma setValue_out m d :
  Z.of_nat (length (cells m)) ≤ pointer m →
  setValue d m = (Raise IndexError, m).
Proof.
  intros Hb. unfold setValue, mbind, M_bind, get, lift.
  by rewrite getitem_ge.
Qed.

Lemma setPointerTo_in m c x :
  cells m !! Z.to_nat (Z.max c 0) = Some x →
  setPointerTo c m =
    (Ok (), {| cells := cells m; pointer := Z.max c 0; value := x |}).
Proof.
  intros Hx. run_tape. erewrite getitem_Some; [done | lia | done].
Qed.

Lemma setPointerTo_out m c :
  Z.of_nat (length (cells m)) ≤ Z.max c 0 →
  setPointerTo c m =
    (Raise IndexError,
     {| cells := cells m; pointer := Z.max c 0; value := value m |}).
Proof. intros Hb. run_tape. by rewrite getitem_ge. Qed.

Lemma in_bounds_lookup m :
  in_bounds m → ∃ x, cells m !! Z.to_nat (pointer m) = Some x.
Proof.
  intros Hb. apply lookup_lt_is_Some_2. red in Hb. lia.
Qed.

Lemma setPointer_unfold m d :
  setPointer d m = setPointerTo (pointer m + d) m.
Proof. reflexivity. Qed.

Lemma in_bounds_or_out m :
  0 ≤ pointer m →
  in_bounds m ∨ Z.of_nat (length (cells m)) ≤ pointer m.
Proof. unfold in_bounds. lia. Qed.

Lemma clamped_max t : clamped t (Z.max t 0).
Proof. unfold clamped. lia. Qed.

Lemma run_call_tape_ok c m : tape_ok m → tape_ok (run_call c m).2.
Proof.
  intros [Hcells Hptr].
  destruct c as [d|v|d]; cbn [run_call].
  - destruct (in_bounds_or_out m Hptr) as [Hb|Hb].
    + destruct (in_bounds_lookup m Hb) as [x Hx].
      rewrite (setValue_in m d x) by done. split; cbn; [|done].
      apply Forall_insert; [done | lia].
    + by rewrite setValue_out.
  - destruct (in_bounds_or_out m Hptr) as [Hb|Hb].
    + rewrite setCellTo_in by done. split; cbn; [|done].
      apply Forall_insert; [done | lia].
    + by rewrite setCellTo_out.
  - rewrite setPointer_unfold.
    destruct (decide (Z.max (pointer m + d) 0 < Z.of_nat (length (cells m))))
      as [Hlt|Hge].
    + destruct (lookup_lt_is_Some_2 (cells m)
                  (Z.to_nat (Z.max (pointer m + d) 0))) as [x Hx]; [lia|].
      rewrite (setPointerTo_in m _ x) by done. split; cbn; [done | lia].
    + rewrite setPointerTo_out by lia. split; cbn; [done | lia].
Qed.

Lemma run_calls_tape_ok cs m : tape_ok m → tape_ok (run_calls cs m).
Proof.
  revert m. induction cs as [|c cs IH]; intros m Hm; [done|].
  cbn [run_calls]. by apply IH, run_call_tape_ok.
Qed.

(** C6.  Starting from a tape without negative cells or pointer, after any
    sequence [cs] of [setValue], [setCellTo] and [setPointer] calls, and
    after one more call [c], no cell and no pointer is negative.  The
    call [c] clamps at zero and does not wrap: [setValue d] leaves in the
    current cell [x + d], or exactly 0 when [x + d < 0]; [setCellTo v]
    leaves [v], or exactly 0 when [v < 0]; [setPointer d] leaves the
    pointer at [p + d], or at exactly 0 when [p + d < 0]. *)
Theorem tape_clamping (m : Memory) (cs : list tape_call) (c : tape_call) :
  tape_ok m →
  let m1 := run_calls cs m in
  let m2 := (run_call c m1).2 in
  tape_ok m1 ∧ tape_ok m2 ∧
  match c with
  | CallSetValue d =>
      ∀ x, cells m1 !! Z.to_nat (pointer m1) = Some x →
        ∃ y, cells m2 !! Z.to_nat (pointer m1) = Some y ∧ clamped (x + d) y
  | CallSetCellTo v =>
      in_bounds m1 →
        ∃ y, cells m2 !! Z.to_nat (pointer m1) = Some y ∧ clamped v y
  | CallSetPointer d => clamped (pointer m1 + d) (pointer m2)
  end.
Proof.
  intros Hm m1 m2.
  assert (Hm1 : tape_ok m1) by by apply run_calls_tape_ok.
  split; [done|]. split; [by apply run_call_tape_ok|].
  subst m2. destruct c as [d|v|d]; cbn [run_call].
  - intros x Hx. exists (Z.max (x + d) 0).
    assert (Hb : in_bounds m1).
    { destruct Hm1 as [_ Hp]. apply lookup_lt_Some in Hx.
      unfold in_bounds. lia. }
    rewrite (setValue_in m1 d x) by done. cbn. split.
    + apply list_lookup_insert_eq. red in Hb. lia.
    + apply clamped_max.
  - intros Hb. exists (Z.max v 0).
    rewrite setCellTo_in by done. cbn. split.
    + apply list_lookup_insert_eq. red in Hb. lia.
    + apply clamped_max.
  - rewrite setPointer_unfold.
    destruct (decide (Z.max (pointer m1 + d) 0
                      < Z.of_nat (length (cells m1)))) as [Hlt|Hge].
    + destruct (lookup_lt_is_Some_2 (cells m1)
                  (Z.to_nat (Z.max (pointer m1 + d) 0))) as [x Hx]; [lia|].
      rewrite (setPointerTo_in m1 _ x) by done. apply clamped_max.
    + rewrite setPointerTo_out by lia. apply clamped_max.
Qed.

Lemma tape_clamping_witness :
  tape_ok (init 3) ∧
  clamped (1 + -4)
    (pointer (run_call (CallSetPointer (-4))
                (run_calls [CallSetValue (-5); CallSetPointer 1] (init 3))).2).
Proof.
  assert (H : tape_ok (init 3)).
  { split; simpl; [repeat constructor; lia | lia]. }
  split; [exact H|].
  exact (proj2 (proj2
    (tape_clamping (init 3) [CallSetValue (-5); CallSetPointer 1]
       (CallSetPointer (-4)) H))).
Defined.

End MemFacts.

(** ** Input and output *)

Module IOFacts.
Import Mem MemFacts.

Lemma on_mem_eq {A} (f : M Memory A) w r m' :
  f (mem w) = (r, m') →
  on_mem f w = (r, {| mem := m'; stdin := stdin w; stdout := stdout w |}).
Proof. intros H. unfold on_mem. by rewrite H. Qed.

Lemma read_eof w : stdin w = [] → IO.read w = (Raise EOFError, w).
Proof. intros H. unfold IO.read, mbind, M_bind, input. by rewrite H. Qed.

Lemma read_empty w rest :
  stdin w = [] :: rest →
  IO.read w =
    (Raise TypeError, {| mem := mem w; stdin := rest; stdout := stdout w |}).
Proof. intros H. unfold IO.read, mbind, M_bind, input. by rewrite H. Qed.

Lemma read_line w c line rest :
  stdin w = (c :: line) :: rest →
  IO.read w =
    on_mem (setCellTo c)
      {| mem := mem w; stdin := rest; stdout := stdout w |}.
Proof. intros H. unfold IO.read, mbind, M_bind, input. by rewrite H. Qed.

Lemma str_of_digit v : 0 ≤ v ≤ 9 → str_of_int v = [ch "0" + v].
Proof.
  intros Hv.
  assert (Hcases : v = 0 ∨ v = 1 ∨ v = 2 ∨ v = 3 ∨ v = 4 ∨ v = 5 ∨ v = 6
                   ∨ v = 7 ∨ v = 8 ∨ v = 9) by lia.
  repeat (destruct Hcases as [->|Hcases]; [reflexivity|]).
  by subst.
Qed.

(** C5.  With the cached value a code point ([0 <= value <= 0x10FFFF]),
    [Memory.print] returns, leaves the tape alone and appends one
    character to the output: the decimal digit of the value when the
    value is between 0 and 9, the character whose code point is the value
    otherwise. *)
Theorem print_digit_or_char (w : world) :
  0 ≤ value (mem w) ≤ 1114111 →
  IO.print w =
    (Ok (),
     {| mem := mem w; stdin := stdin w;
        stdout := stdout w ++
          [if bool_decide (value (mem w) ≤ 9)
           then ch "0" + value (mem w) else value (mem w)] |}).
Proof.
  intros Hv. unfold IO.print, mbind, M_bind, gets, write.
  destruct (decide (value (mem w) > 9)) as [Hgt|Hle].
  - rewrite bool_decide_eq_true_2 by done.
    rewrite (bool_decide_eq_false_2 (value (mem w) ≤ 9)) by lia.
    unfold lift, chr. by rewrite bool_decide_eq_true_2.
  - rewrite bool_decide_eq_false_2 by done.
    rewrite (bool_decide_eq_true_2 (value (mem w) ≤ 9)) by lia.
    unfold mret, M_ret. rewrite str_of_digit by lia. done.
Qed.

Lemma print_digit_or_char_witness :
  0 ≤ 7 ≤ 1114111 ∧
  IO.print {| mem := {| cells := [7]; pointer := 0; value := 7 |};
              stdin := []; stdout := [] |} =
    (Ok (),
     {| mem := {| cells := [7]; pointer := 0; value := 7 |};
        stdin := []; stdout := [ch "7"] |}).
Proof.
  split; [lia|].
  apply (print_digit_or_char
           {| mem := {| cells := [7]; pointer := 0; value := 7 |};
              stdin := []; stdout := [] |}).
  simpl. lia.
Defined.

(** C4 (the code departs from the claim).  On an empty input line
    [Memory.read] rebinds [inputValue] to the integer 0 and then
    subscripts it: the call raises [TypeError] and stores nothing. *)
Theorem read_empty_line_raises (m : Memory) (rest : list str) (out : str) :
  IO.read {| mem := m; stdin := [] :: rest; stdout := out |} =
    (Raise TypeError, {| mem := m; stdin := rest; stdout := out |}).
Proof. by apply read_empty. Qed.

(** The other half of [Memory.read]: a non-empty line stores the code
    point of its first character. *)
Lemma read_first_char (w : world) (c : char) (line : str) (rest : list str) :
  in_bounds (mem w) → stdin w = (c :: line) :: rest →
  IO.read w =
    (Ok (),
     {| mem := {| cells := <[Z.to_nat (pointer (mem w)) := Z.max c 0]>
                             (cells (mem w));
                  pointer := pointer (mem w); value := Z.max c 0 |};
        stdin := rest; stdout := stdout w |}).
Proof.
  intros Hb Hin. rewrite (read_line w c line rest Hin).
  erewrite on_mem_eq; [done|]. cbn [mem]. by apply setCellTo_in.
Qed.

Lemma synced_after_write m x :
  in_bounds m →
  synced {| cells := <[Z.to_nat (pointer m) := x]> (cells m);
            pointer := pointer m; value := x |}.
Proof.
  intros Hb. split; cbn; [apply Hb|].
  apply list_lookup_insert_eq. red in Hb. lia.
Qed.

Lemma in_bounds_after_write m x v :
  in_bounds m →
  in_bounds {| cells := <[Z.to_nat (pointer m) := x]> (cells m);
               pointer := pointer m; value := v |}.
Proof. unfold in_bounds. cbn. by rewrite length_insert. Qed.





Lemma print_cases (w : world) :
  (∃ s, IO.print w =
          (Ok (), {| mem := mem w; stdin := stdin w;
                     stdout := stdout w ++ s |}))
  ∨ IO.print w = (Raise ValueError, w).
Proof.
  unfold IO.print, mbind, M_bind, gets, write, lift, chr, mret, M_ret.
  repeat case_bool_decide; eauto.
Qed.

Lemma read_cases (w : world) :
  in_bounds (mem w) →
  (∃ w', IO.read w = (Ok (), w') ∧ in_bounds (mem w'))
  ∨ (∃ e, e ≠ IndexError ∧
       IO.read w = (Raise e, {| mem := mem w; stdin := tail (stdin w);
                                stdout := stdout w |})).
Proof.
  intros Hb. destruct (stdin w) as [|[|c line] rest] eqn:Hin.
  - right. exists EOFError. split; [done|].
    rewrite read_eof by done. by destruct w; simplify_eq/=.
  - right. exists TypeError. split; [done|]. by rewrite (read_empty w rest).
  - left. eexists. split; [by apply (read_first_char w c line rest)|].
    by apply in_bounds_after_write.
Qed.

(** C10 (as amended: the tape is not empty).  On a tape of [N >= 1] cells
    with pointer [p], [setPointer delta] raises [IndexError] at once when
    [p + delta >= N], and returns with the pointer in bounds (clamped at 0)
    when [p + delta < N].  So a fault is never left for later: when the
    pointer is in bounds, [setCellTo] and [setValue] return and keep it in
    bounds, [print] and [read] never raise [IndexError] and keep the
    pointer in bounds. *)
Theorem move_faults_at_once (w : world) (d : Z) :
  let m := mem w in
  let N := Z.of_nat (length (cells m)) in
  1 ≤ N →
  (N ≤ pointer m + d → ∃ m', setPointer d m = (Raise IndexError, m')) ∧
  (pointer m + d < N →
     ∃ m', setPointer d m = (Ok (), m') ∧ in_bounds m' ∧
           clamped (pointer m + d) (pointer m') ∧ cells m' = cells m) ∧
  (in_bounds m →
     (∀ v, ∃ m', setCellTo v m = (Ok (), m') ∧ in_bounds m') ∧
     (∀ d', ∃ m', setValue d' m = (Ok (), m') ∧ in_bounds m') ∧
     (IO.print w).1 ≠ Raise IndexError ∧ in_bounds (mem (IO.print w).2) ∧
     (IO.read w).1 ≠ Raise IndexError ∧ in_bounds (mem (IO.read w).2)).
Proof.
  intros m N HN. subst N. split; [|split].
  - intros Hge. eexists. rewrite setPointer_unfold.
    apply setPointerTo_out. lia.
  - intros Hlt.
    destruct (lookup_lt_is_Some_2 (cells m)
      (Z.to_nat (Z.max (pointer m + d) 0))) as [x Hx]; [lia|].
    eexists. split.
    { rewrite setPointer_unfold. by apply (setPointerTo_in _ _ x). }
    unfold in_bounds. cbn [cells pointer value].
    split; [lia|]. split; [apply clamped_max | done].
  - intros Hb. split; [|split; [|split; [|split; [|split]]]].
    + intros v. eexists. split; [by apply setCellTo_in|].
      by apply in_bounds_after_write.
    + intros d'. destruct (in_bounds_lookup _ Hb) as [x Hx].
      eexists. split; [by apply (setValue_in _ d' x)|].
      by apply in_bounds_after_write.
    + destruct (print_cases w) as [[s ->] | ->]; done.
    + destruct (print_cases w) as [[s ->] | ->]; exact Hb.
    + destruct (read_cases w Hb) as [(w' & -> & _) | (e & He & ->)];
        cbn; congruence.
    + destruct (read_cases w Hb) as [(w' & -> & Hw') | (e & He & ->)];
        [exact Hw' | exact Hb].
Qed.

Lemma move_faults_at_once_witness :
  1 ≤ Z.of_nat (length (cells (init 2))) ∧
  ∃ m', setPointer 5 (init 2) = (Raise IndexError, m').
Proof.
  assert (H : 1 ≤ Z.of_nat (length (cells (init 2)))) by (simpl; lia).
  split; [exact H|].
  apply (proj1 (move_faults_at_once
                  {| mem := init 2; stdin := []; stdout := [] |} 5 H)).
  simpl. lia.
Defined.

(** C10 as first stated fails on an empty tape: [Memory(0)] has no cell 0,
    so the move by -1, clamped to 0, raises [IndexError]. *)
Lemma empty_tape_move_fails :
  let m := init 0 in
  pointer m + -1 < 0 ∧ setPointer (-1) m = (Raise IndexError, m).
Proof. split; [simpl; lia | reflexivity]. Qed.

End IOFacts.

(** ** The depth analyzer *)

Module DepthFacts.

Lemma eq_open c : bool_decide ([c] = lit "[") = is_open c.
Proof.
  unfold is_open. apply bool_decide_ext. split.
  - intros H. by injection H.
  - by intros ->.
Qed.

Lemma eq_close c : bool_decide ([c] = lit "]") = is_close c.
Proof.
  unfold is_close. apply bool_decide_ext. split.
  - intros H. by injection H.
  - by intros ->.
Qed.

Lemma open_not_close c : is_open c = true → is_close c = false.
Proof.
  unfold is_open, is_close. intros H%bool_decide_eq_true_1. by subst.
Qed.

Lemma depth_after_app l1 l2 :
  depth_after (l1 ++ l2) = depth_after l1 + depth_after l2.
Proof. induction l1 as [|c l1 IH]; cbn [depth_after app]; lia. Qed.

Lemma depth_after_take_S text k c :
  text !! k = Some c →
  depth_after (take (S k) text) = depth_after (take k text) + delta c.
Proof.
  intros Hc. rewrite (take_S_r _ _ _ Hc), depth_after_app.
  cbn [depth_after]. lia.
Qed.

Lemma is_last_open_nil : is_last_open [] (-1).
Proof. split; [by intros q _ | by left]. Qed.

Lemma is_last_open_snoc l z c :
  is_last_open l z →
  is_last_open (l ++ [c]) (if is_open c then Z.of_nat (length l) else z).
Proof.
  intros [Hafter Hat]. destruct (is_open c) eqn:Hc.
  - apply bool_decide_eq_true_1 in Hc. split.
    + intros q Hq. rewrite lookup_ge_None_2; [done|].
      rewrite length_app. cbn. lia.
    + right. exists (length l). split; [done|].
      rewrite lookup_app_r by lia. rewrite Nat.sub_diag. cbn. by subst.
  - apply bool_decide_eq_false_1 in Hc. split.
    + intros q Hq. destruct (decide (q < length l)%nat) as [Hlt|Hge].
      * rewrite lookup_app_l by done. by apply Hafter.
      * rewrite lookup_app_r by lia.
        destruct (q - length l)%nat; cbn; [congruence | done].
    + destruct Hat as [->|(p & -> & Hp)]; [by left|].
      right. exists p. split; [done|].
      rewrite lookup_app_l; [done|]. by eapply lookup_lt_Some.
Qed.

(** One round of the loop, on the default brackets. *)
Lemma body_step text i s c :
  text !! i = Some c → (i < length (depths s))%nat →
  getNestingLevels_body text (lit "[") (lit "]") i s =
    if bool_decide (depth s + delta c < 0)
    then Raise (UnmatchedClosingBracket (Z.of_nat i))
    else Ok {| depth := depth s + delta c;
               lastopen := if is_open c then Z.of_nat i else lastopen s;
               depths := <[i := depth s + delta c]> (depths s) |}.
Proof.
  intros Hc Hi. unfold getNestingLevels_body.
  rewrite getitem_nat, Hc. cbn [mbind result_bind].
  rewrite eq_open, eq_close. unfold delta.
  destruct (is_open c) eqn:Ho.
  - rewrite (open_not_close c Ho). cbn [depth lastopen depths].
    replace (depth s + (1 - 0)) with (depth s + 1) by lia.
    case_bool_decide; [done|]. by rewrite setitem_nat.
  - destruct (is_close c) eqn:Hcl; cbn [depth lastopen depths].
    + replace (depth s + (0 - 1)) with (depth s - 1) by lia.
      case_bool_decide; [done|]. by rewrite setitem_nat.
    + replace (depth s + (0 - 0)) with (depth s) by lia.
      case_bool_decide; [done|]. rewrite setitem_nat by done.
      by destruct s.
Qed.

Lemma scan_inv_step text k s c :
  text !! k = Some c → scan_inv text k s →
  scan_inv text (S k)
    {| depth := depth s + delta c;
       lastopen := if is_open c then Z.of_nat k else lastopen s;
       depths := <[k := depth s + delta c]> (depths s) |}.
Proof.
  intros Hc (Hd & Hl & Hlen & Hpre).
  assert (Hk : (k < length text)%nat) by by eapply lookup_lt_Some.
  assert (HD : depth_after (take (S k) text) = depth s + delta c).
  { rewrite (depth_after_take_S _ _ _ Hc). lia. }
  split; [|split; [|split]]; cbn [depth lastopen depths].
  - done.
  - rewrite (take_S_r _ _ _ Hc).
    replace (Z.of_nat k) with (Z.of_nat (length (take k text))).
    + by apply is_last_open_snoc.
    + rewrite length_take. lia.
  - by rewrite length_insert.
  - intros j Hj. destruct (decide (j = k)) as [->|Hne].
    + rewrite list_lookup_insert_eq by lia. by rewrite HD.
    + rewrite list_lookup_insert_ne by done. apply Hpre. lia.
Qed.

(** The loop from position [k] on, for the [n] characters that remain. *)
Lemma scan_loop text n : ∀ k s,
  (k + n = length text)%nat → scan_inv text k s →
  match for_each (seq k n)
          (getNestingLevels_body text (lit "[") (lit "]")) s with
  | Ok s' =>
      scan_inv text (k + n) s'
      ∧ ∀ j, (k ≤ j < k + n)%nat → 0 ≤ depth_after (take (S j) text)
  | Raise e =>
      ∃ j, (k ≤ j < k + n)%nat ∧ e = UnmatchedClosingBracket (Z.of_nat j)
           ∧ depth_after (take (S j) text) < 0
           ∧ ∀ j', (k ≤ j' < j)%nat → 0 ≤ depth_after (take (S j') text)
  end.
Proof.
  induction n as [|n IH]; intros k s Hkn Hinv.
  - cbn [seq for_each]. rewrite Nat.add_0_r. split; [done | lia].
  - cbn [seq for_each].
    destruct (lookup_lt_is_Some_2 text k) as [c Hc]; [lia|].
    assert (Hlen : (k < length (depths s))%nat).
    { destruct Hinv as (_ & _ & -> & _). lia. }
    rewrite (body_step text k s c Hc Hlen).
    assert (HD : depth_after (take (S k) text) = depth s + delta c).
    { rewrite (depth_after_take_S _ _ _ Hc).
      destruct Hinv as (-> & _). done. }
    case_bool_decide as Hneg; cbn [mbind result_bind].
    + exists k. repeat split; [lia | lia | lia | intros; lia].
    + specialize (IH (S k) _ ltac:(lia) (scan_inv_step text k s c Hc Hinv)).
      destruct (for_each _ _ _) as [s'|e].
      * destruct IH as [Hinv' Hpos]. replace (k + S n)%nat with (S k + n)%nat by lia.
        split; [done|]. intros j Hj.
        destruct (decide (j = k)) as [->|Hne]; [lia | apply Hpos; lia].
      * destruct IH as (j & Hj & -> & Hjneg & Hbefore).
        exists j. split; [lia|]. split; [done|]. split; [done|].
        intros j' Hj'.
        destruct (decide (j' = k)) as [->|Hne]; [lia | apply Hbefore; lia].
Qed.

Lemma scan_inv_init text :
  scan_inv text 0
    {| depth := 0; lastopen := -1; depths := replicate (length text) 0 |}.
Proof.
  split; [|split; [|split]]; cbn [depth lastopen depths].
  - by rewrite take_0.
  - rewrite take_0. apply is_last_open_nil.
  - apply length_replicate.
  - intros j Hj. lia.
Qed.

(** What the analyzer answers, by the depths of the prefixes of the
    text. *)
Lemma analyze_cases text :
  text ≠ [] →
  match getNestingLevels text (lit "[") (lit "]") with
  | Ok levels =>
      length levels = length text
      ∧ (∀ j, (j < length text)%nat →
           levels !! j = Some (depth_after (take (S j) text)))
      ∧ (∀ j, (j < length text)%nat → 0 ≤ depth_after (take (S j) text))
      ∧ depth_after text ≤ 0
  | Raise e =>
      (∃ j, (j < length text)%nat ∧ e = UnmatchedClosingBracket (Z.of_nat j)
            ∧ depth_after (take (S j) text) < 0
            ∧ ∀ j', (j' < j)%nat → 0 ≤ depth_after (take (S j') text))
      ∨ ((∀ j, (j < length text)%nat → 0 ≤ depth_after (take (S j) text))
         ∧ 0 < depth_after text
         ∧ ∃ z, e = UnmatchedOpeningBracket z ∧ is_last_open text z)
  end.
Proof.
  intros Hne. unfold getNestingLevels.
  rewrite bool_decide_eq_false_2 by (by destruct text).
  unfold range. rewrite Nat.sub_0_r.
  pose proof (scan_loop text (length text) 0 _ eq_refl (scan_inv_init text))
    as Hloop.
  destruct (for_each _ _ _) as [s'|e]; cbn [mbind result_bind].
  - destruct Hloop as [(Hd & Hl & Hlen & Hpre) Hpos].
    cbn [Nat.add] in *. rewrite firstn_all in Hd, Hl.
    case_bool_decide as Hgt.
    + right. split; [intros; apply Hpos; lia|]. split; [lia|]. eauto.
    + split; [done|]. split; [done|].
      split; [intros; apply Hpos; lia | lia].
  - left. destruct Hloop as (j & Hj & -> & Hneg & Hbefore).
    exists j. split; [lia|]. split; [done|]. split; [done|].
    intros j' Hj'. apply Hbefore. lia.
Qed.

(** *** The stack of open brackets *)

Lemma open_stack_from_app l1 : ∀ pos st l2,
  open_stack_from pos st (l1 ++ l2) =
  open_stack_from pos st l1
    ≫= λ st', open_stack_from (pos + length l1) st' l2.
Proof.
  induction l1 as [|c l1 IH]; intros pos st l2; cbn [app open_stack_from].
  - cbn. by rewrite Nat.add_0_r.
  - destruct (stack_step pos c st) as [st1|]; cbn; [|done].
    rewrite IH. by replace (S pos + length l1)%nat
      with (pos + S (length l1))%nat by lia.
Qed.

Lemma open_stack_take_S text k c :
  text !! k = Some c →
  open_stack (take (S k) text) = open_stack (take k text) ≫= stack_step k c.
Proof.
  intros Hc. assert (Hk : (k < length text)%nat) by by eapply lookup_lt_Some.
  rewrite (take_S_r _ _ _ Hc). unfold open_stack.
  rewrite open_stack_from_app. rewrite length_take, Nat.min_l by lia.
  destruct (open_stack_from 0 [] (take k text)) as [st|]; cbn; [|done].
  by destruct (stack_step k c st).
Qed.

(** A prefix without partner for some close bracket spoils the text. *)
Lemma open_stack_prefix text k st :
  open_stack text = Some st → is_Some (open_stack (take k text)).
Proof.
  unfold open_stack. rewrite <- (take_drop k text) at 1.
  rewrite open_stack_from_app.
  destruct (open_stack_from 0 [] (take k text)); [eauto | done].
Qed.

Lemma stack_step_length k c st st' :
  stack_step k c st = Some st' →
  Z.of_nat (length st') = Z.of_nat (length st) + delta c.
Proof.
  unfold stack_step, delta. destruct (is_open c) eqn:Ho.
  - rewrite (open_not_close c Ho). intros [= <-]. cbn [length]. lia.
  - destruct (is_close c).
    + destruct st as [|o st1]; [done|]. intros [= <-]. cbn [length]. lia.
    + intros [= <-]. lia.
Qed.

(** The stack is as high as the depth. *)
Lemma open_stack_length text k st :
  (k ≤ length text)%nat → open_stack (take k text) = Some st →
  Z.of_nat (length st) = depth_after (take k text).
Proof.
  revert st. induction k as [|k IH]; intros st Hk.
  - rewrite take_0. by intros [= <-].
  - destruct (lookup_lt_is_Some_2 text k) as [c Hc]; [lia|].
    rewrite (open_stack_take_S _ _ _ Hc), (depth_after_take_S _ _ _ Hc).
    destruct (open_stack (take k text)) as [st0|]; cbn; [|done].
    intros Hstep. rewrite (stack_step_length _ _ _ _ Hstep).
    rewrite (IH st0); [done | lia | done].
Qed.

(** While no prefix has a negative depth, every close bracket finds its
    partner. *)
Lemma open_stack_defined text k :
  (k ≤ length text)%nat →
  (∀ j, (j < k)%nat → 0 ≤ depth_after (take (S j) text)) →
  is_Some (open_stack (take k text)).
Proof.
  induction k as [|k IH]; intros Hk Hpos.
  - rewrite take_0. by eexists.
  - destruct (lookup_lt_is_Some_2 text k) as [c Hc]; [lia|].
    destruct IH as [st Hst]; [lia | intros; apply Hpos; lia |].
    rewrite (open_stack_take_S _ _ _ Hc), Hst. cbn.
    pose proof (open_stack_length text k st ltac:(lia) Hst) as Hlen.
    specialize (Hpos k ltac:(lia)).
    rewrite (depth_after_take_S _ _ _ Hc) in Hpos.
    unfold stack_step. unfold delta in Hpos.
    destruct (is_open c); [by eexists|].
    destruct (is_close c); [|by eexists].
    destruct st; [cbn in Hlen; lia | by eexists].
Qed.

Lemma balanced_depths text :
  balanced text →
  (∀ j, (j < length text)%nat → 0 ≤ depth_after (take (S j) text))
  ∧ depth_after text = 0.
Proof.
  intros Hbal. split.
  - intros j Hj.
    destruct (open_stack_prefix text (S j) _ Hbal) as [st Hst].
    rewrite <- (open_stack_length text (S j) st); [lia | lia | done].
  - pose proof (open_stack_length text (length text) []) as H.
    rewrite firstn_all in H. rewrite <- H; [done | lia | done].
Qed.

Lemma depths_balanced text :
  (∀ j, (j < length text)%nat → 0 ≤ depth_after (take (S j) text)) →
  depth_after text = 0 → balanced text.
Proof.
  intros Hpos Hzero.
  destruct (open_stack_defined text (length text)) as [st Hst]; [lia|done|].
  pose proof (open_stack_length text (length text) st ltac:(lia) Hst) as H.
  rewrite firstn_all in H, Hst. unfold balanced. rewrite Hst.
  destruct st; [done | cbn in H; lia].
Qed.

(** A validated text, by its depths. *)
Lemma validated_depths text levels :
  validated text levels →
  text ≠ [] ∧ balanced text ∧ length levels = length text
  ∧ ∀ j, (j < length text)%nat →
      levels !! j = Some (depth_after (take (S j) text)).
Proof.
  unfold validated. intros Hval.
  assert (Hne : text ≠ []).
  { intros ->. by vm_compute in Hval. }
  split; [done|]. pose proof (analyze_cases text Hne) as Hcases.
  rewrite Hval in Hcases. destruct Hcases as (Hlen & Hlev & Hpos & Hle).
  split; [|done]. apply depths_balanced; [done|].
  destruct (length text) as [|n] eqn:Hn; [by destruct text|].
  specialize (Hpos n ltac:(lia)).
  rewrite <- Hn, firstn_all in Hpos. lia.
Qed.

(** C3.  On a non-empty text with balanced brackets [getNestingLevels]
    returns one depth per character; the depth at position [i] is the
    number of unmatched open brackets enclosing [i] (the brackets still
    open once the character at [i] is read), and it is the depth recorded
    before [i] plus one at an open bracket, minus one at a close bracket,
    and unchanged at any other character. *)
Theorem depths_count_enclosing (text : str) :
  text ≠ [] → balanced text →
  ∃ levels,
    getNestingLevels text (lit "[") (lit "]") = Ok levels
    ∧ length levels = length text
    ∧ ∀ i c, text !! i = Some c →
        ∃ d, levels !! i = Some d
             ∧ enclosing text i = Some d
             ∧ (c = ch "[" → d = depth_before levels i + 1)
             ∧ (c = ch "]" → d = depth_before levels i - 1)
             ∧ (c ≠ ch "[" → c ≠ ch "]" → d = depth_before levels i).
Proof.
  intros Hne Hbal. destruct (balanced_depths text Hbal) as [Hpos Hzero].
  pose proof (analyze_cases text Hne) as Hcases.
  destruct (getNestingLevels _ _ _) as [levels|e].
  - destruct Hcases as (Hlen & Hlev & _ & _).
    exists levels. split; [done|]. split; [done|].
    intros i c Hc.
    assert (Hi : (i < length text)%nat) by by eapply lookup_lt_Some.
    exists (depth_after (take (S i) text)).
    split; [by apply Hlev|]. split.
    { unfold enclosing.
      destruct (open_stack_prefix text (S i) _ Hbal) as [st Hst].
      rewrite Hst. cbn. f_equal.
      by apply (open_stack_length text (S i)); [lia|]. }
    assert (Hbefore : depth_before levels i = depth_after (take i text)).
    { destruct i as [|j]; cbn [depth_before]; [by rewrite take_0|].
      by rewrite Hlev by lia. }
    rewrite Hbefore, (depth_after_take_S _ _ _ Hc). unfold delta.
    unfold is_open, is_close.
    split; [|split].
    + intros ->. rewrite bool_decide_eq_true_2 by done.
      rewrite bool_decide_eq_false_2 by done. lia.
    + intros ->. rewrite bool_decide_eq_false_2 by done.
      rewrite bool_decide_eq_true_2 by done. lia.
    + intros H1 H2. rewrite !bool_decide_eq_false_2 by done. lia.
  - exfalso. destruct Hcases as [(j & Hj & _ & Hneg & _) | (_ & Hgt & _)].
    + specialize (Hpos j Hj). lia.
    + lia.
Qed.

Lemma depths_count_enclosing_witness :
  lit "+[-]" ≠ [] ∧ balanced (lit "+[-]") ∧
  ∃ levels,
    getNestingLevels (lit "+[-]") (lit "[") (lit "]") = Ok levels
    ∧ length levels = length (lit "+[-]").
Proof.
  assert (H1 : lit "+[-]" ≠ []) by (vm_compute; discriminate).
  assert (H2 : balanced (lit "+[-]")) by reflexivity.
  split; [exact H1|]. split; [exact H2|].
  destruct (depths_count_enclosing (lit "+[-]") H1 H2)
    as (levels & Hrun & Hlen & _).
  exists levels. split; [exact Hrun | exact Hlen].
Defined.

Lemma no_open_depth l :
  (∀ q : nat, l !! q ≠ Some (ch "[")) → depth_after l ≤ 0.
Proof.
  induction l as [|c l IH]; intros Hno; cbn [depth_after]; [lia|].
  assert (Hc : is_open c = false).
  { apply bool_decide_eq_false_2. intros ->. by apply (Hno 0%nat). }
  specialize (IH (λ q, Hno (S q))). unfold delta. rewrite Hc.
  destruct (is_close c); lia.
Qed.

(** C7 (as amended: the bracket reported for "[[" is the last one, at
    position 1).  The text "[[" fails with [UnmatchedOpeningBracket 1], the
    text "]" with [UnmatchedClosingBracket 0]; and whenever no prefix of
    the text has a negative depth and the final depth is not zero, the
    analyzer fails with [UnmatchedOpeningBracket p], [p] being the position
    of the last open bracket of the text (what the loop keeps in
    [lastopen]). *)
Theorem unmatched_reports (text : str) :
  getNestingLevels (lit "[[") (lit "[") (lit "]")
    = Raise (UnmatchedOpeningBracket 1)
  ∧ getNestingLevels (lit "]") (lit "[") (lit "]")
    = Raise (UnmatchedClosingBracket 0)
  ∧ ((∀ k, 0 ≤ depth_after (take k text)) → depth_after text ≠ 0 →
     ∃ p : nat,
       getNestingLevels text (lit "[") (lit "]")
         = Raise (UnmatchedOpeningBracket (Z.of_nat p))
       ∧ text !! p = Some (ch "[")
       ∧ ∀ q, (p < q)%nat → text !! q ≠ Some (ch "[")).
Proof.
  split; [reflexivity|]. split; [reflexivity|].
  intros Hpos Hnz.
  assert (Hne : text ≠ []) by (by intros ->).
  pose proof (analyze_cases text Hne) as Hcases.
  destruct (getNestingLevels _ _ _) as [levels|e].
  - exfalso. destruct Hcases as (_ & _ & _ & Hle).
    specialize (Hpos (length text)). rewrite firstn_all in Hpos. lia.
  - destruct Hcases as
      [(j & _ & _ & Hneg & _) | (_ & Hgt & z & -> & Hafter & Hat)].
    + specialize (Hpos (S j)). lia.
    + destruct Hat as [->|(p & -> & Hp)].
      * exfalso. pose proof (no_open_depth text) as Hno.
        assert (depth_after text ≤ 0); [|lia].
        apply Hno. intros q. apply Hafter. lia.
      * exists p. split; [done|]. split; [done|].
        intros q Hq. apply Hafter. lia.
Qed.

Lemma unmatched_reports_witness :
  (∀ k, 0 ≤ depth_after (take k (lit "[[]")))
  ∧ depth_after (lit "[[]") ≠ 0
  ∧ ∃ p : nat,
      getNestingLevels (lit "[[]") (lit "[") (lit "]")
        = Raise (UnmatchedOpeningBracket (Z.of_nat p))
      ∧ lit "[[]" !! p = Some (ch "[")
      ∧ ∀ q, (p < q)%nat → lit "[[]" !! q ≠ Some (ch "[").
Proof.
  assert (H1 : ∀ k, 0 ≤ depth_after (take k (lit "[[]"))).
  { intros [|[|[|[|k]]]]; vm_compute; discriminate. }
  assert (H2 : depth_after (lit "[[]") ≠ 0) by (vm_compute; discriminate).
  split; [exact H1|]. split; [exact H2|].
  exact (proj2 (proj2 (unmatched_reports (lit "[[]"))) H1 H2).
Defined.

(** C7 as first stated fails: for "[[" the analyzer does not name the
    outer bracket, at position 0. *)
Lemma outer_bracket_not_reported :
  getNestingLevels (lit "[[") (lit "[") (lit "]")
    ≠ Raise (UnmatchedOpeningBracket 0).
Proof. vm_compute. discriminate. Qed.

End DepthFacts.

(** ** The jump resolver *)

Module JumpFacts.
Import DepthFacts.

(** An ascending scan returns at the first hit. *)
Lemma scan_up {R} (body : nat → result (option R)) (p : nat → bool)
    (g : nat → R) (n : nat) : ∀ a,
  (∀ f, (a ≤ f < a + n)%nat →
     body f = Ok (if p f then Some (g f) else None)) →
  (∃ f, (a ≤ f < a + n)%nat ∧ p f = true
        ∧ (∀ f', (a ≤ f' < f)%nat → p f' = false)
        ∧ for_return (seq a n) body = Ok (Some (g f)))
  ∨ ((∀ f, (a ≤ f < a + n)%nat → p f = false)
     ∧ for_return (seq a n) body = Ok None).
Proof.
  induction n as [|n IH]; intros a Hbody; cbn [seq for_return].
  - right. split; [intros; lia | done].
  - rewrite Hbody by lia. cbn [mbind result_bind].
    destruct (p a) eqn:Hpa.
    + left. exists a. split; [lia|]. split; [done|].
      split; [intros; lia | done].
    + destruct (IH (S a)) as [(f & Hf & Hpf & Hbefore & ->) | (Hnone & ->)].
      * intros f Hf. apply Hbody. lia.
      * left. exists f. split; [lia|]. split; [done|]. split; [|done].
        intros f' Hf'. destruct (decide (f' = a)) as [->|Hne]; [done|].
        apply Hbefore. lia.
      * right. split; [|done]. intros f Hf.
        destruct (decide (f = a)) as [->|Hne]; [done | apply Hnone; lia].
Qed.

(** A descending scan from [n] down to 1 returns at the last hit. *)
Lemma scan_down {R} (body : nat → result (option R)) (p : nat → bool)
    (g : nat → R) (n : nat) :
  (∀ f, (1 ≤ f ≤ n)%nat →
     body f = Ok (if p f then Some (g f) else None)) →
  (∃ f, (1 ≤ f ≤ n)%nat ∧ p f = true
        ∧ (∀ f', (f < f' ≤ n)%nat → p f' = false)
        ∧ for_return (range_down n 0) body = Ok (Some (g f)))
  ∨ ((∀ f, (1 ≤ f ≤ n)%nat → p f = false)
     ∧ for_return (range_down n 0) body = Ok None).
Proof.
  unfold range_down. rewrite Nat.sub_0_r.
  induction n as [|n IH]; intros Hbody.
  - right. split; [intros; lia | done].
  - rewrite seq_S, rev_app_distr. cbn [rev app for_return Nat.add].
    rewrite Hbody by lia. cbn [mbind result_bind].
    destruct (p (S n)) eqn:Hpn.
    + left. exists (S n). split; [lia|]. split; [done|].
      split; [intros; lia | done].
    + destruct IH as [(f & Hf & Hpf & Hafter & ->) | (Hnone & ->)].
      * intros f Hf. apply Hbody. lia.
      * left. exists f. split; [lia|]. split; [done|]. split; [|done].
        intros f' Hf'. destruct (decide (f' = S n)) as [->|Hne]; [done|].
        apply Hafter. lia.
      * right. split; [|done]. intros f Hf.
        destruct (decide (f = S n)) as [->|Hne]; [done | apply Hnone; lia].
Qed.

(** [findLevelOpening] on any list of depths. *)
Lemma findLevelOpening_cases levels i level :
  levels !! i = Some level →
  (∃ f, (1 ≤ f < i)%nat ∧ levels !! f = Some level
        ∧ (∀ g, (f < g < i)%nat → levels !! g ≠ Some level)
        ∧ findLevelOpening levels i = Ok (f + 2)%nat)
  ∨ ((∀ g, (1 ≤ g < i)%nat → levels !! g ≠ Some level)
     ∧ findLevelOpening levels i
       = Raise (UnmatchedClosingBracket (Z.of_nat i))).
Proof.
  intros Hlevel.
  assert (Hi : (i < length levels)%nat) by by eapply lookup_lt_Some.
  unfold findLevelOpening. rewrite getitem_nat, Hlevel.
  cbn [mbind result_bind]. rewrite length_take, Nat.min_l by lia.
  destruct (scan_down
    (λ f, x ← getitem (take i levels) (Z.of_nat f);
          Ok (if bool_decide (x = level) then Some (f + 2)%nat else None))
    (λ f, bool_decide (levels !! f = Some level))
    (λ f, (f + 2)%nat) (i - 1))
    as [(f & Hf & Hpf & Hafter & ->) | (Hnone & ->)].
  - intros f Hf. rewrite getitem_nat, lookup_take_lt by lia.
    destruct (lookup_lt_is_Some_2 levels f) as [x Hx]; [lia|].
    rewrite Hx. cbn [mbind result_bind].
    assert (bool_decide (x = level) = bool_decide (Some x = Some level))
      as ->; [|done].
    apply bool_decide_ext. split; [by intros -> | by intros [= ->]].
  - left. exists f. split; [lia|].
    split; [by apply bool_decide_eq_true_1 in Hpf|]. split; [|done].
    intros g Hg. specialize (Hafter g ltac:(lia)).
    by apply bool_decide_eq_false_1 in Hafter.
  - right. split; [|done]. intros g Hg. specialize (Hnone g ltac:(lia)).
    by apply bool_decide_eq_false_1 in Hnone.
Qed.

(** [findLevelClosing] on any list of depths. *)
Lemma findLevelClosing_cases levels i level :
  levels !! i = Some level →
  (∃ j x, (i < j < length levels)%nat ∧ levels !! j = Some x ∧ x < level
        ∧ (∀ g y, (i < g < j)%nat → levels !! g = Some y → level ≤ y)
        ∧ findLevelClosing levels i = Ok (j + 1)%nat)
  ∨ ((∀ g y, (i < g)%nat → levels !! g = Some y → level ≤ y)
     ∧ findLevelClosing levels i
       = Raise (UnmatchedOpeningBracket (Z.of_nat i))).
Proof.
  intros Hlevel.
  assert (Hi : (i < length levels)%nat) by by eapply lookup_lt_Some.
  unfold findLevelClosing. rewrite getitem_nat, Hlevel.
  cbn [mbind result_bind]. unfold range. rewrite length_drop.
  destruct (scan_up
    (λ f, x ← getitem (drop i levels) (Z.of_nat f);
          Ok (if bool_decide (x < level) then Some (i + f + 1)%nat
              else None))
    (λ f, bool_decide (default 0 (levels !! (i + f)%nat) < level))
    (λ f, (i + f + 1)%nat) (length levels - i - 1) 1)
    as [(f & Hf & Hpf & Hbefore & ->) | (Hnone & ->)].
  - intros f Hf. rewrite getitem_nat, lookup_drop.
    destruct (lookup_lt_is_Some_2 levels (i + f)) as [x Hx]; [lia|].
    by rewrite Hx.
  - left. destruct (lookup_lt_is_Some_2 levels (i + f)) as [x Hx]; [lia|].
    exists (i + f)%nat, x. split; [lia|]. split; [done|].
    apply bool_decide_eq_true_1 in Hpf. rewrite Hx in Hpf. split; [done|].
    split; [|done]. intros g y Hg Hy.
    specialize (Hbefore (g - i)%nat ltac:(lia)).
    apply bool_decide_eq_false_1 in Hbefore.
    replace (i + (g - i))%nat with g in Hbefore by lia.
    rewrite Hy in Hbefore. cbn in Hbefore. lia.
  - right. split; [|done]. intros g y Hg Hy.
    assert (Hglen : (g < length levels)%nat) by by eapply lookup_lt_Some.
    specialize (Hnone (g - i)%nat ltac:(lia)).
    apply bool_decide_eq_false_1 in Hnone.
    replace (i + (g - i))%nat with g in Hnone by lia.
    rewrite Hy in Hnone. cbn in Hnone. lia.
Qed.

(** Every open bracket on the stack sits below the depths of all that
    follows it, and just above the depth before it. *)
Lemma stack_inv text k : ∀ st,
  (k ≤ length text)%nat → open_stack (take k text) = Some st →
  ∀ idx o, st !! idx = Some o →
    (o < k)%nat ∧ text !! o = Some (ch "[")
    ∧ depth_after (take o text)
      = Z.of_nat (length st) - 1 - Z.of_nat idx
    ∧ ∀ g, (o < g ≤ k)%nat →
        Z.of_nat (length st) - Z.of_nat idx ≤ depth_after (take g text).
Proof.
  induction k as [|k IH]; intros st Hk.
  - rewrite take_0. intros [= <-] idx o Ho. done.
  - destruct (lookup_lt_is_Some_2 text k) as [c Hc]; [lia|].
    rewrite (open_stack_take_S _ _ _ Hc).
    destruct (open_stack (take k text)) as [st0|] eqn:Hst0; cbn; [|done].
    specialize (IH st0 ltac:(lia) eq_refl).
    pose proof (open_stack_length text k st0 ltac:(lia) Hst0) as Hlen0.
    pose proof (depth_after_take_S _ _ _ Hc) as HD.
    unfold stack_step. unfold delta in HD.
    destruct (is_open c) eqn:Ho.
    + rewrite (open_not_close c Ho) in HD. intros [= <-] idx o Hidx.
      cbn [length]. destruct idx as [|idx]; cbn in Hidx.
      * injection Hidx as <-. split; [lia|].
        apply bool_decide_eq_true_1 in Ho. subst c. split; [done|].
        split; [lia|]. intros g Hg. assert (g = S k) as -> by lia. lia.
      * destruct (IH idx o Hidx) as (Hok & Hto & HDo & Hafter).
        split; [lia|]. split; [done|]. split; [lia|]. intros g Hg.
        destruct (decide (g = S k)) as [->|Hne]; [lia|].
        specialize (Hafter g ltac:(lia)). lia.
    + destruct (is_close c) eqn:Hcl.
      * destruct st0 as [|o0 st1]; [done|]. intros [= <-] idx o Hidx.
        cbn [length] in *.
        destruct (IH (S idx) o Hidx) as (Hok & Hto & HDo & Hafter).
        split; [lia|]. split; [done|]. split; [lia|]. intros g Hg.
        destruct (decide (g = S k)) as [->|Hne]; [lia|].
        specialize (Hafter g ltac:(lia)). lia.
      * intros [= <-] idx o Hidx.
        destruct (IH idx o Hidx) as (Hok & Hto & HDo & Hafter).
        split; [lia|]. split; [done|]. split; [lia|]. intros g Hg.
        destruct (decide (g = S k)) as [->|Hne]; [lia|].
        specialize (Hafter g ltac:(lia)). lia.
Qed.

(** A close bracket of a validated text has a partner [o]; its own depth
    is the depth just before [o], and everything from [o] up to the close
    bracket is deeper. *)
Lemma close_bracket_partner text levels i :
  validated text levels → text !! i = Some (ch "]") →
  ∃ o level,
    matching_open text i = Some o ∧ (o < i)%nat
    ∧ text !! o = Some (ch "[")
    ∧ levels !! i = Some level
    ∧ levels !! o = Some (level + 1)
    ∧ depth_after (take o text) = level
    ∧ ∀ g y, (o ≤ g < i)%nat → levels !! g = Some y → level + 1 ≤ y.
Proof.
  intros Hval Hc. destruct (validated_depths _ _ Hval)
    as (Hne & Hbal & Hlen & Hlev).
  assert (Hi : (i < length text)%nat) by by eapply lookup_lt_Some.
  destruct (open_stack_prefix text (S i) _ Hbal) as [st1 Hst1].
  rewrite (open_stack_take_S _ _ _ Hc) in Hst1.
  destruct (open_stack (take i text)) as [st0|] eqn:Hst0; [|done].
  cbn in Hst1. unfold stack_step in Hst1. cbn in Hst1.
  destruct st0 as [|o st']; [done|]. injection Hst1 as <-.
  pose proof (open_stack_length text i _ ltac:(lia) Hst0) as Hlen0.
  destruct (stack_inv text i _ ltac:(lia) Hst0 0%nat o eq_refl)
    as (Hoi & Hto & HDo & Hafter).
  cbn [length] in *.
  pose proof (depth_after_take_S _ _ _ Hc) as HDi.
  pose proof (depth_after_take_S _ _ _ Hto) as HDo'.
  change (delta (ch "]")) with (-1) in HDi.
  change (delta (ch "[")) with 1 in HDo'.
  exists o, (Z.of_nat (length st')).
  split; [unfold matching_open; by rewrite Hst0|].
  split; [done|]. split; [done|].
  split; [rewrite Hlev by lia; f_equal; lia|].
  split; [rewrite Hlev by lia; f_equal; lia|].
  split; [lia|]. intros g y Hg Hy. rewrite Hlev in Hy by lia.
  injection Hy as <-. specialize (Hafter (S g) ltac:(lia)). lia.
Qed.

(** The jumps of a matched pair: forward from the open bracket [o] to
    just after the close bracket [c]; backward from [c] to just after
    [o], provided [o] is at position 2 or later. *)
Lemma jump_pair text levels c o :
  validated text levels → text !! c = Some (ch "]") →
  matching_open text c = Some o →
  findLevelClosing levels o = Ok (S c)
  ∧ ((2 ≤ o)%nat → findLevelOpening levels c = Ok (S o))
  ∧ ((o < 2)%nat →
     findLevelOpening levels c
     = Raise (UnmatchedClosingBracket (Z.of_nat c))).
Proof.
  intros Hval Hc Hmatch.
  destruct (close_bracket_partner text levels c Hval Hc)
    as (o' & level & Hmatch' & Hoc & Hto & Hlc & Hlo & HDo & Hdeep).
  assert (o' = o) as -> by congruence.
  destruct (validated_depths _ _ Hval) as (Hne & Hbal & Hlen & Hlev).
  assert (Hclen : (c < length levels)%nat) by by eapply lookup_lt_Some.
  split; [|split].
  - destruct (findLevelClosing_cases levels o _ Hlo)
      as [(j & x & Hj & Hx & Hlt & Hbefore & ->) | (Hnone & _)].
    + destruct (decide (j = c)) as [->|Hne']; [f_equal; lia|]. exfalso.
      destruct (decide (j < c)%nat).
      * specialize (Hdeep j x ltac:(lia) Hx). lia.
      * specialize (Hbefore c level ltac:(lia) Hlc). lia.
    + exfalso. specialize (Hnone c level Hoc Hlc). lia.
  - intros Ho.
    assert (Hprev : levels !! (o - 1)%nat = Some level).
    { rewrite Hlev by lia. replace (S (o - 1)) with o by lia.
      by rewrite HDo. }
    destruct (findLevelOpening_cases levels c _ Hlc)
      as [(f & Hf & Hlf & Hafter & ->) | (Hnone & _)].
    + f_equal. destruct (decide (f + 1 = o)%nat); [lia|]. exfalso.
      destruct (decide (o ≤ f)%nat).
      * specialize (Hdeep f level ltac:(lia) Hlf). lia.
      * by apply (Hafter (o - 1)%nat ltac:(lia)).
    + exfalso. by apply (Hnone (o - 1)%nat ltac:(lia)).
  - intros Ho.
    destruct (findLevelOpening_cases levels c _ Hlc)
      as [(f & Hf & Hlf & Hafter & _) | (_ & ->)]; [|done].
    exfalso. specialize (Hdeep f level ltac:(lia) Hlf). lia.
Qed.

(** C2.  For a validated text and a close bracket at position [i], of
    depth [level]: [findLevelOpening] scans the positions [i-1] down to 1
    (position 0 is left out).  When a position of depth [level] exists
    there, it returns the first one met ([f], the greatest) plus 2, and
    that is the position just after the open bracket that matches the
    close bracket; when there is none it fails with
    [UnmatchedClosingBracket i]. *)
Theorem resolve_backward (text : str) (levels : list Z) (i : nat) :
  validated text levels → text !! i = Some (ch "]") →
  ∃ level, levels !! i = Some level ∧
    ((∃ f, (1 ≤ f < i)%nat ∧ levels !! f = Some level
           ∧ (∀ g, (f < g < i)%nat → levels !! g ≠ Some level)
           ∧ findLevelOpening levels i = Ok (f + 2)%nat
           ∧ matching_open text i = Some (f + 1)%nat)
     ∨ ((∀ g, (1 ≤ g < i)%nat → levels !! g ≠ Some level)
        ∧ findLevelOpening levels i
          = Raise (UnmatchedClosingBracket (Z.of_nat i)))).
Proof.
  intros Hval Hc.
  destruct (close_bracket_partner text levels i Hval Hc)
    as (o & level & Hmatch & Hoi & Hto & Hli & Hlo & HDo & Hdeep).
  destruct (validated_depths _ _ Hval) as (Hne & Hbal & Hlen & Hlev).
  assert (Hi : (i < length text)%nat) by by eapply lookup_lt_Some.
  exists level. split; [done|].
  destruct (findLevelOpening_cases levels i _ Hli)
    as [(f & Hf & Hlf & Hafter & Hrun) | (Hnone & Hrun)].
  - left. exists f. do 4 (split; [done|]).
    rewrite Hmatch. f_equal.
    destruct (decide (f + 1 = o)%nat) as [|Hne']; [lia|]. exfalso.
    destruct (decide (o ≤ f)%nat).
    + specialize (Hdeep f level ltac:(lia) Hlf). lia.
    + apply (Hafter (o - 1)%nat ltac:(lia)).
      rewrite Hlev by lia. replace (S (o - 1)) with o by lia.
      by rewrite HDo.
  - by right.
Qed.

Lemma resolve_backward_witness :
  validated (lit "++[-]") [0; 0; 1; 1; 0]
  ∧ lit "++[-]" !! 4%nat = Some (ch "]")
  ∧ ∃ level, [0; 0; 1; 1; 0] !! 4%nat = Some level ∧
    ((∃ f, (1 ≤ f < 4)%nat ∧ [0; 0; 1; 1; 0] !! f = Some level
           ∧ (∀ g, (f < g < 4)%nat → [0; 0; 1; 1; 0] !! g ≠ Some level)
           ∧ findLevelOpening [0; 0; 1; 1; 0] 4 = Ok (f + 2)%nat
           ∧ matching_open (lit "++[-]") 4 = Some (f + 1)%nat)
     ∨ ((∀ g, (1 ≤ g < 4)%nat → [0; 0; 1; 1; 0] !! g ≠ Some level)
        ∧ findLevelOpening [0; 0; 1; 1; 0] 4
          = Raise (UnmatchedClosingBracket (Z.of_nat 4)))).
Proof.
  assert (H1 : validated (lit "++[-]") [0; 0; 1; 1; 0]) by reflexivity.
  assert (H2 : lit "++[-]" !! 4%nat = Some (ch "]")) by reflexivity.
  split; [exact H1|]. split; [exact H2|].
  exact (resolve_backward (lit "++[-]") [0; 0; 1; 1; 0] 4 H1 H2).
Defined.

(** C1 (the code departs from the claim).  In the validated text ",[-]"
    the open bracket is at position 1: the forward jump from it lands at
    4, just after the close bracket at 3, but the backward jump from 3
    fails instead of landing at 2.  The same happens for an open bracket at
    position 0, as in "[]". *)
Theorem round_trip_fails_near_start :
  validated (lit ",[-]") [0; 1; 1; 0]
  ∧ findLevelClosing [0; 1; 1; 0] 1 = Ok 4%nat
  ∧ findLevelOpening [0; 1; 1; 0] 3 = Raise (UnmatchedClosingBracket 3)
  ∧ validated (lit "[]") [1; 0]
  ∧ findLevelClosing [1; 0] 0 = Ok 2%nat
  ∧ findLevelOpening [1; 0] 1 = Raise (UnmatchedClosingBracket 1).
Proof. repeat split. Qed.

End JumpFacts.

(** ** The execution engine *)

Module EngineFacts.
Import Mem MemFacts IOFacts.

Lemma brainfuck_loop files fuel text memory memsize w levels :
  memory ≠ NotAMemory →
  validated (script_of files text) levels →
  brainfuck files fuel text memory memsize w =
    while_loop fuel levels (script_of files text) 0
      (world_at_start memory memsize w).
Proof.
  intros Hmem Hval. unfold brainfuck, validated in *.
  fold (script_of files text).
  unfold mbind, M_bind, lift, get, put, mret, M_ret, world_at_start.
  destruct memory; [| |done]; by rewrite Hval.
Qed.

(** A character outside the instruction set stops the run where it
    stands. *)
Lemma dispatch_unknown levels script i w c l :
  levels !! i = Some l → script !! i = Some c → is_instruction c = false →
  dispatch levels script i w = (Raise (UnknownInstruction c), w).
Proof.
  intros Hl Hc Hno. apply bool_decide_eq_false_1 in Hno.
  change (lit "+-><.,[]") with [43; 45; 62; 60; 46; 44; 91; 93] in Hno.
  rewrite !not_elem_of_cons in Hno.
  destruct Hno as (? & ? & ? & ? & ? & ? & ? & ? & _).
  unfold dispatch, mbind, M_bind, lift. rewrite !getitem_nat, Hl, Hc.
  by rewrite !bool_decide_eq_false_2 by done.
Qed.

(** The first [k] rounds of the loop are the first [k] rounds of any
    longer run. *)
Lemma while_loop_advance levels script k : ∀ fuel i w j wk,
  advance k levels script i w = (Ok j, wk) → (k ≤ fuel)%nat →
  while_loop fuel levels script i w =
    while_loop (fuel - k) levels script j wk.
Proof.
  induction k as [|k IH]; intros fuel i w j wk Hadv Hk.
  - cbn in Hadv. injection Hadv as <- <-. by rewrite Nat.sub_0_r.
  - cbn [advance] in Hadv. destruct fuel as [|fuel]; [lia|].
    cbn [while_loop Nat.sub]. case_bool_decide as Hi.
    + unfold mbind, M_bind in *.
      destruct (dispatch levels script i w) as [[i'|e] w']; [|done].
      apply IH; [done | lia].
    + cbn in Hadv. injection Hadv as <- <-.
      destruct (fuel - k)%nat; cbn [while_loop];
        by rewrite bool_decide_eq_false_2.
Qed.

Lemma init_cells memsize :
  1 ≤ memsize →
  cells (init memsize) = 0 :: replicate (Z.to_nat memsize - 1) 0.
Proof.
  intros H. cbn [init cells].
  replace (Z.to_nat memsize) with (S (Z.to_nat memsize - 1)) at 1 by lia.
  done.
Qed.

(** C8.  Running "+x" on a fresh tape of at least one cell raises
    [UnknownInstruction] for the character x, and the tape then holds the
    effect of the one "+" that ran: the current cell, and the cached
    value, are 1.  More generally, when the first [k] rounds of a run
    bring the engine to position [j] in the world [wk], and the character
    at [j] is not an instruction, the run raises [UnknownInstruction] for
    that character and ends in the very world [wk]: what the earlier
    rounds did to the tape (and to the input and the output) stays. *)
Theorem unknown_instruction_keeps_tape
    (files : str → option (list str)) (fuel k : nat)
    (text : str) (memory : memory_arg) (memsize : Z) (levels : list Z)
    (j : nat) (c : char) (w wk : world) :
  (files (lit "+x") = None → 1 ≤ memsize → (2 ≤ fuel)%nat →
   brainfuck files fuel (lit "+x") MemoryOmitted memsize w =
     (Raise (UnknownInstruction (ch "x")),
      {| mem := {| cells := 1 :: replicate (Z.to_nat memsize - 1) 0;
                   pointer := 0; value := 1 |};
         stdin := stdin w; stdout := stdout w |}))
  ∧ (memory ≠ NotAMemory →
     validated (script_of files text) levels →
     advance k levels (script_of files text) 0
       (world_at_start memory memsize w) = (Ok j, wk) →
     script_of files text !! j = Some c → is_instruction c = false →
     (k < fuel)%nat →
     brainfuck files fuel text memory memsize w =
       (Raise (UnknownInstruction c), wk)).
Proof.
  assert (Hgen : ∀ text' memory' k' j' c' wk' levels',
    memory' ≠ NotAMemory →
    validated (script_of files text') levels' →
    advance k' levels' (script_of files text') 0
      (world_at_start memory' memsize w) = (Ok j', wk') →
    script_of files text' !! j' = Some c' → is_instruction c' = false →
    (k' < fuel)%nat →
    brainfuck files fuel text' memory' memsize w =
      (Raise (UnknownInstruction c'), wk')).
  { intros text' memory' k' j' c' wk' levels' Hmem Hval Hadv Hc Hno Hk.
    rewrite (brainfuck_loop _ _ _ _ _ _ levels') by done.
    rewrite (while_loop_advance _ _ k' fuel 0 _ j' wk') by (done || lia).
    destruct (fuel - k')%nat as [|fuel'] eqn:Hfuel; [lia|].
    cbn [while_loop].
    rewrite bool_decide_eq_true_2 by by eapply lookup_lt_Some.
    destruct (DepthFacts.validated_depths _ _ Hval) as (_ & _ & Hlen & _).
    destruct (lookup_lt_is_Some_2 levels' j') as [l Hl].
    { rewrite Hlen. by eapply lookup_lt_Some. }
    unfold mbind, M_bind. by rewrite (dispatch_unknown _ _ _ _ c' l). }
  split; [|by apply Hgen].
  intros Hfile Hsize Hfuel.
  assert (Hscript : script_of files (lit "+x") = lit "+x").
  { unfold script_of. by rewrite Hfile. }
  apply (Hgen (lit "+x") MemoryOmitted 1%nat 1%nat (ch "x") _ [0; 0]);
    [done | by rewrite Hscript | | by rewrite Hscript | done | lia].
  rewrite Hscript. cbn [advance world_at_start].
  rewrite bool_decide_eq_true_2 by (cbn; lia).
  unfold mbind at 1. unfold M_bind at 1.
  assert (Hplus : dispatch [0; 0] (lit "+x") 0
    {| mem := init memsize; stdin := stdin w; stdout := stdout w |} =
    (Ok 1%nat,
     {| mem := {| cells := 1 :: replicate (Z.to_nat memsize - 1) 0;
                  pointer := 0; value := 1 |};
        stdin := stdin w; stdout := stdout w |})); [|by rewrite Hplus].
  unfold dispatch, mbind, M_bind, lift, mret, M_ret. cbn [getitem].
  change (getitem [0; 0] (Z.of_nat 0)) with (Ok (A:=Z) 0).
  change (getitem (lit "+x") (Z.of_nat 0)) with (Ok (A:=Z) (ch "+")).
  cbn [bool_decide decide_rel]. rewrite bool_decide_eq_true_2 by done.
  erewrite on_mem_eq.
  2:{ cbn [mem]. apply (setValue_in _ 1 0).
      - unfold in_bounds. cbn [init cells pointer].
        rewrite length_replicate. lia.
      - rewrite init_cells by done. done. }
  cbn [pointer init Z.to_nat]. rewrite init_cells by done. done.
Qed.

Lemma unknown_instruction_keeps_tape_witness :
  no_files (lit "+x") = None ∧ 1 ≤ 3 ∧ (2 ≤ 5)%nat ∧
  brainfuck no_files 5 (lit "+x") MemoryOmitted 3 (fresh_world []) =
    (Raise (UnknownInstruction (ch "x")),
     {| mem := {| cells := [1; 0; 0]; pointer := 0; value := 1 |};
        stdin := []; stdout := [] |}).
Proof.
  assert (H1 : no_files (lit "+x") = None) by reflexivity.
  assert (H2 : 1 ≤ 3) by lia.
  assert (H3 : (2 ≤ 5)%nat) by lia.
  split; [exact H1|]. split; [exact H2|]. split; [exact H3|].
  exact (proj1 (unknown_instruction_keeps_tape no_files 5 0 [] MemoryOmitted
                  3 [] 0%nat 0 (fresh_world []) (fresh_world [])) H1 H2 H3).
Defined.

(** The failed backward jump, seen from a run: ",[-]" on the input line
    "2" reads 50 into the cell, decrements it once and, at the close
    bracket, raises instead of going round the loop again. *)
Lemma loop_at_position_one_raises :
  brainfuck no_files 10 (lit ",[-]") MemoryOmitted 1
    {| mem := init 1; stdin := [lit "2"]; stdout := [] |} =
    (Raise (UnmatchedClosingBracket 3),
     {| mem := {| cells := [49]; pointer := 0; value := 49 |};
        stdin := []; stdout := [] |}).
Proof. reflexivity. Qed.

(** Runs of the engine on small programs. *)
Example run_three_plus :
  brainfuck no_files 10 (lit "+++.") MemoryOmitted 2
    {| mem := init 0; stdin := []; stdout := [] |} =
    (Ok Finished,
     {| mem := {| cells := [3; 0]; pointer := 0; value := 3 |};
        stdin := []; stdout := lit "3" |}).
Proof. reflexivity. Qed.

Example run_eight_times_eight :
  brainfuck no_files 200 (lit "++++++++[>++++++++<-]>.") MemoryOmitted 2
    {| mem := init 0; stdin := []; stdout := [] |} =
    (Ok Finished,
     {| mem := {| cells := [0; 64]; pointer := 1; value := 64 |};
        stdin := []; stdout := lit "@" |}).
Proof. vm_compute. reflexivity. Qed.

End EngineFacts.

(** * Further properties *)

(** ** Laws of the tape *)

Module TapeLaws.
Import Mem MemFacts IOFacts.

Lemma setitem_length {A} (l l' : list A) k x :
  setitem l k x = Ok l' → length l' = length l.
Proof.
  unfold setitem. destruct (index_of _ _); [|done].
  intros [= <-]. apply length_insert.
Qed.

Lemma setCellTo_length m v :
  length (cells (setCellTo v m).2) = length (cells m).
Proof.
  run_tape. destruct (setitem _ _ _) as [l|e] eqn:Hset; [|done].
  apply setitem_length in Hset. by destruct (getitem _ _).
Qed.

(** No call changes the length of the tape, whatever the tape. *)
Lemma run_call_length c m :
  length (cells (run_call c m).2) = length (cells m).
Proof.
  destruct c as [d|v|d]; cbn [run_call].
  - unfold setValue, mbind, M_bind, get, lift.
    destruct (getitem _ _); [apply setCellTo_length | done].
  - apply setCellTo_length.
  - run_tape. by destruct (getitem _ _).
Qed.

Lemma run_call_synced c m :
  tape_ok m → (in_bounds m → synced m) →
  in_bounds (run_call c m).2 → synced (run_call c m).2.
Proof.
  intros [_ Hptr] Hsync.
  destruct (in_bounds_or_out m Hptr) as [Hb|Hout].
  - destruct c as [d|v|d]; cbn [run_call].
    + destruct (in_bounds_lookup m Hb) as [x Hx].
      rewrite (setValue_in m d x) by done. intros _.
      by apply synced_after_write.
    + rewrite setCellTo_in by done. intros _. by apply synced_after_write.
    + rewrite setPointer_unfold.
      destruct (decide (Z.max (pointer m + d) 0
                        < Z.of_nat (length (cells m)))) as [Hlt|Hge].
      * destruct (lookup_lt_is_Some_2 (cells m)
          (Z.to_nat (Z.max (pointer m + d) 0))) as [x Hx]; [lia|].
        rewrite (setPointerTo_in m _ x) by done. intros _.
        split; cbn [snd cells pointer value]; [lia | done].
      * rewrite setPointerTo_out by lia. unfold in_bounds.
        cbn [snd cells pointer]. lia.
  - destruct c as [d|v|d]; cbn [run_call].
    + rewrite setValue_out by done. unfold in_bounds. cbn [snd]. lia.
    + rewrite setCellTo_out by done. unfold in_bounds. cbn [snd]. lia.
    + rewrite setPointer_unfold.
      destruct (decide (Z.max (pointer m + d) 0
                        < Z.of_nat (length (cells m)))) as [Hlt|Hge].
      * destruct (lookup_lt_is_Some_2 (cells m)
          (Z.to_nat (Z.max (pointer m + d) 0))) as [x Hx]; [lia|].
        rewrite (setPointerTo_in m _ x) by done. intros _.
        split; cbn [snd cells pointer value]; [lia | done].
      * rewrite setPointerTo_out by lia. unfold in_bounds.
        cbn [snd cells pointer]. lia.
Qed.

Lemma run_calls_invariant cs : ∀ m n,
  tape_ok m → length (cells m) = n → (in_bounds m → synced m) →
  tape_ok (run_calls cs m) ∧ length (cells (run_calls cs m)) = n
  ∧ (in_bounds (run_calls cs m) → synced (run_calls cs m)).
Proof.
  induction cs as [|c cs IH]; intros m n Hok Hlen Hsync; [done|].
  cbn [run_calls]. apply IH.
  - by apply run_call_tape_ok.
  - by rewrite run_call_length.
  - by apply run_call_synced.
Qed.

(** X1.  Whatever calls of [setValue], [setCellTo] and [setPointer] are
    made on a fresh [Memory(size)], returning or raising: no cell and no
    pointer is negative, the tape still has [max(size, 0)] cells, and
    whenever the pointer is on the tape the cached [value] is the cell
    under it. *)
Theorem fresh_tape_invariant (size : Z) (cs : list tape_call) :
  let m := run_calls cs (init size) in
  tape_ok m ∧ length (cells m) = Z.to_nat size
  ∧ (in_bounds m → synced m).
Proof.
  apply run_calls_invariant.
  - split; cbn [init cells pointer]; [|done].
    apply Forall_replicate. done.
  - cbn [init cells]. apply length_replicate.
  - unfold in_bounds, synced. cbn [init cells pointer value].
    rewrite length_replicate. intros Hb. split; [done|].
    apply lookup_replicate_2. lia.
Qed.

(** X2.  [Memory(size)] with [size <= 0] is an empty tape: each of
    [setValue], [setCellTo] and [setPointer] raises [IndexError] on it,
    with any argument, and the tape stays empty. *)
Theorem empty_tape_always_faults (size : Z) (c : tape_call) :
  size ≤ 0 →
  ∃ m', run_call c (init size) = (Raise IndexError, m') ∧ cells m' = [].
Proof.
  intros Hsize. unfold init.
  replace (Z.to_nat size) with 0%nat by lia. cbn [replicate].
  destruct c as [d|v|d]; cbn [run_call].
  - eexists. split; [apply setValue_out; cbn; lia | done].
  - eexists. split; [apply setCellTo_out; cbn; lia | done].
  - eexists. rewrite setPointer_unfold.
    split; [apply setPointerTo_out; cbn [cells length]; lia | done].
Qed.

Lemma empty_tape_always_faults_witness :
  -2 ≤ 0 ∧
  ∃ m', run_call (CallSetValue 1) (init (-2)) = (Raise IndexError, m')
        ∧ cells m' = [].
Proof.
  assert (H : -2 ≤ 0) by lia.
  split; [exact H|].
  exact (empty_tape_always_faults (-2) (CallSetValue 1) H).
Defined.

(** X3.  Two [setValue] calls in a row add up when the first one does not
    clamp: on a cell [x] with [0 <= x + d1], [setValue(d1)] then
    [setValue(d2)] is [setValue(d1 + d2)].  When the first one clamps
    ([x + d1 < 0]) the pair is [setCellTo(d2)]: what was below zero is
    lost. *)
Theorem setValue_compose (m : Memory) (d1 d2 x : Z) :
  in_bounds m → current m = Some x →
  (0 ≤ x + d1 →
   then_call (setValue d1) (setValue d2) m = setValue (d1 + d2) m)
  ∧ (x + d1 < 0 →
     then_call (setValue d1) (setValue d2) m = setCellTo d2 m).
Proof.
  intros Hb Hx. unfold current in Hx.
  assert (Hlt : (Z.to_nat (pointer m) < length (cells m))%nat)
    by (red in Hb; lia).
  assert (Hfirst : then_call (setValue d1) (setValue d2) m =
    (Ok (), {| cells := <[Z.to_nat (pointer m)
                          := Z.max (Z.max (x + d1) 0 + d2) 0]> (cells m);
               pointer := pointer m;
               value := Z.max (Z.max (x + d1) 0 + d2) 0 |})).
  { unfold then_call, mbind, M_bind. rewrite (setValue_in m d1 x) by done.
    rewrite (setValue_in _ d2 (Z.max (x + d1) 0)).
    - cbn [cells pointer value]. by rewrite list_insert_insert_eq.
    - by apply in_bounds_after_write.
    - cbn [cells pointer]. by apply list_lookup_insert_eq. }
  rewrite Hfirst. split; intros Hsign.
  - rewrite (setValue_in m (d1 + d2) x) by done.
    by replace (Z.max (Z.max (x + d1) 0 + d2) 0)
      with (Z.max (x + (d1 + d2)) 0) by lia.
  - rewrite setCellTo_in by done.
    by replace (Z.max (Z.max (x + d1) 0 + d2) 0) with (Z.max d2 0) by lia.
Qed.

Lemma setValue_compose_witness :
  in_bounds (init 2) ∧ current (init 2) = Some 0 ∧
  then_call (setValue (-1)) (setValue 1) (init 2) = setCellTo 1 (init 2).
Proof.
  assert (H1 : in_bounds (init 2)) by (unfold in_bounds; simpl; lia).
  assert (H2 : current (init 2) = Some 0) by reflexivity.
  split; [exact H1|]. split; [exact H2|].
  apply (proj2 (setValue_compose (init 2) (-1) 1 0 H1 H2)). lia.
Defined.

(** X4.  Two moves in a row add up when neither leaves the tape at the
    low end or the high end: with [0 <= p + d1 < N] and the final target
    on the tape, [setPointer(d1)] then [setPointer(d2)] is
    [setPointer(d1 + d2)]. *)
Theorem setPointer_compose (m : Memory) (d1 d2 : Z) :
  0 ≤ pointer m + d1 < Z.of_nat (length (cells m)) →
  Z.max (pointer m + d1 + d2) 0 < Z.of_nat (length (cells m)) →
  then_call (setPointer d1) (setPointer d2) m = setPointer (d1 + d2) m.
Proof.
  intros H1 H2.
  destruct (lookup_lt_is_Some_2 (cells m)
    (Z.to_nat (Z.max (pointer m + d1) 0))) as [x1 Hx1]; [lia|].
  destruct (lookup_lt_is_Some_2 (cells m)
    (Z.to_nat (Z.max (pointer m + d1 + d2) 0))) as [x2 Hx2]; [lia|].
  unfold then_call, mbind, M_bind. rewrite !setPointer_unfold.
  rewrite (setPointerTo_in m _ x1) by done.
  rewrite setPointer_unfold. cbn [pointer].
  rewrite (setPointerTo_in _ _ x2).
  - rewrite (setPointerTo_in m (pointer m + (d1 + d2)) x2).
    + cbn [cells]. do 3 f_equal. lia.
    + rewrite <- Hx2. do 2 f_equal. lia.
  - cbn [cells]. rewrite <- Hx2. do 2 f_equal. lia.
Qed.

Lemma setPointer_compose_witness :
  0 ≤ pointer (init 3) + 2 < Z.of_nat (length (cells (init 3)))
  ∧ Z.max (pointer (init 3) + 2 + -1) 0
    < Z.of_nat (length (cells (init 3)))
  ∧ then_call (setPointer 2) (setPointer (-1)) (init 3)
    = setPointer (2 + -1) (init 3).
Proof.
  assert (H1 : 0 ≤ pointer (init 3) + 2
               < Z.of_nat (length (cells (init 3)))) by (simpl; lia).
  assert (H2 : Z.max (pointer (init 3) + 2 + -1) 0
               < Z.of_nat (length (cells (init 3)))) by (simpl; lia).
  split; [exact H1|]. split; [exact H2|].
  exact (setPointer_compose (init 3) 2 (-1) H1 H2).
Defined.

(** X5.  Cells are unbounded above and saturate at zero: [k] calls of
    [setValue(d)] on a cell [x >= 0] leave [max(x + k * d, 0)] in it, with
    no wrap at 255 or anywhere else, and do not move the pointer. *)
Theorem setValue_repeated (k : nat) (d : Z) : ∀ (m : Memory) (x : Z),
  in_bounds m → current m = Some x → 0 ≤ x →
  let m' := run_calls (replicate k (CallSetValue d)) m in
  current m' = Some (Z.max (x + Z.of_nat k * d) 0)
  ∧ pointer m' = pointer m.
Proof.
  induction k as [|k IH]; intros m x Hb Hx Hpos; cbn [replicate run_calls].
  - split; [|done]. rewrite Hx. f_equal. lia.
  - cbn [run_call]. unfold current in Hx.
    rewrite (setValue_in m d x) by done. cbn [snd].
    destruct (IH {| cells := <[Z.to_nat (pointer m) := Z.max (x + d) 0]>
                               (cells m);
                    pointer := pointer m; value := Z.max (x + d) 0 |}
                 (Z.max (x + d) 0)) as [Hcell Hptr].
    + by apply in_bounds_after_write.
    + unfold current. cbn [cells pointer].
      apply list_lookup_insert_eq. red in Hb. lia.
    + lia.
    + split; [|exact Hptr]. rewrite Hcell. f_equal.
      assert (d < 0 → Z.of_nat k * d ≤ 0) by nia.
      assert (0 ≤ d → 0 ≤ Z.of_nat k * d) by nia.
      lia.
Qed.

Lemma setValue_repeated_witness :
  in_bounds (init 1) ∧ current (init 1) = Some 0 ∧ 0 ≤ 0 ∧
  current (run_calls (replicate 300 (CallSetValue 1)) (init 1))
  = Some (Z.max (0 + Z.of_nat 300 * 1) 0).
Proof.
  assert (H1 : in_bounds (init 1)) by (unfold in_bounds; simpl; lia).
  assert (H2 : current (init 1) = Some 0) by reflexivity.
  assert (H3 : 0 ≤ 0) by lia.
  split; [exact H1|]. split; [exact H2|]. split; [exact H3|].
  exact (proj1 (setValue_repeated 300 1 (init 1) 0 H1 H2 H3)).
Defined.

(** X6.  What a call leaves alone, on a tape whose pointer is in bounds:
    a move changes no cell; [setValue] and [setCellTo] keep the pointer
    and change no cell but the current one. *)
Theorem tape_frame (m : Memory) (c : tape_call) :
  in_bounds m →
  let m' := (run_call c m).2 in
  match c with
  | CallSetPointer _ => cells m' = cells m
  | _ =>
      pointer m' = pointer m
      ∧ ∀ j, j ≠ Z.to_nat (pointer m) → cells m' !! j = cells m !! j
  end.
Proof.
  intros Hb. destruct c as [d|v|d]; cbn [run_call].
  - destruct (in_bounds_lookup m Hb) as [x Hx].
    rewrite (setValue_in m d x) by done. cbn [snd cells pointer].
    split; [done|]. intros j Hj. by apply list_lookup_insert_ne.
  - rewrite setCellTo_in by done. cbn [snd cells pointer].
    split; [done|]. intros j Hj. by apply list_lookup_insert_ne.
  - run_tape. by destruct (getitem _ _).
Qed.

Lemma tape_frame_witness :
  in_bounds (init 2) ∧
  cells (run_call (CallSetPointer 1) (init 2)).2 = cells (init 2).
Proof.
  assert (H : in_bounds (init 2)) by (unfold in_bounds; simpl; lia).
  split; [exact H|].
  exact (tape_frame (init 2) (CallSetPointer 1) H).
Defined.

(** X7.  [Memory.read] at the end of the input raises [EOFError] and
    changes nothing; on a non-empty line, with the pointer in bounds, it
    stores the code point of the first character, drops the rest of the
    line and consumes exactly that line. *)
Theorem read_line_or_eof (w : world) (c : char) (line : str)
    (rest : list str) :
  (stdin w = [] → IO.read w = (Raise EOFError, w))
  ∧ (in_bounds (mem w) → stdin w = (c :: line) :: rest → 0 ≤ c →
     IO.read w =
       (Ok (),
        {| mem := {| cells := <[Z.to_nat (pointer (mem w)) := c]>
                                (cells (mem w));
                     pointer := pointer (mem w); value := c |};
           stdin := rest; stdout := stdout w |})).
Proof.
  split; [apply read_eof|].
  intros Hb Hin Hc. rewrite (read_first_char w c line rest Hb Hin).
  by rewrite Z.max_l by done.
Qed.

Lemma read_line_or_eof_witness :
  stdin (fresh_world []) = [] ∧
  IO.read (fresh_world []) = (Raise EOFError, fresh_world []).
Proof.
  assert (H : stdin (fresh_world []) = []) by reflexivity.
  split; [exact H|].
  exact (proj1 (read_line_or_eof (fresh_world []) 0 [] []) H).
Defined.

End TapeLaws.

(** ** Laws of the depth analyzer *)

Module AnalyzerLaws.
Import DepthFacts.

Lemma balanced_validated text :
  text ≠ [] → balanced text → ∃ levels, validated text levels.
Proof.
  intros Hne Hbal. destruct (balanced_depths text Hbal) as [Hpos Hzero].
  pose proof (analyze_cases text Hne) as Hcases. unfold validated.
  destruct (getNestingLevels _ _ _) as [levels|e]; [by eexists|].
  exfalso. destruct Hcases as [(j & Hj & _ & Hneg & _) | (_ & Hgt & _)].
  - specialize (Hpos j Hj). lia.
  - lia.
Qed.

(** X8.  [getNestingLevels] accepts a text exactly when the text is not
    empty and its brackets are balanced. *)
Theorem validated_iff_balanced (text : str) :
  (∃ levels, validated text levels) ↔ text ≠ [] ∧ balanced text.
Proof.
  split.
  - intros [levels Hval].
    destruct (validated_depths _ _ Hval) as (Hne & Hbal & _). done.
  - intros [Hne Hbal]. by apply balanced_validated.
Qed.

(** X9.  The analyzer stops at the first close bracket without partner:
    when every bracket before position [j] is matched and a close bracket
    stands at [j], it raises [UnmatchedClosingBracket j], whatever
    follows. *)
Theorem first_unmatched_close_reported (text : str) (j : nat) :
  open_stack (take j text) = Some [] → text !! j = Some (ch "]") →
  getNestingLevels text (lit "[") (lit "]")
  = Raise (UnmatchedClosingBracket (Z.of_nat j)).
Proof.
  intros Hst Hc.
  assert (Hj : (j < length text)%nat) by by eapply lookup_lt_Some.
  assert (Hne : text ≠ []) by (intros ->; cbn in Hj; lia).
  assert (HDj : depth_after (take j text) = 0).
  { rewrite <- (open_stack_length text j []); [done | lia | done]. }
  assert (Hneg : depth_after (take (S j) text) < 0).
  { rewrite (depth_after_take_S _ _ _ Hc), HDj.
    change (delta (ch "]")) with (-1). lia. }
  assert (Hbefore : ∀ j', (j' < j)%nat → 0 ≤ depth_after (take (S j') text)).
  { intros j' Hj'.
    destruct (open_stack_prefix (take j text) (S j') _ Hst) as [st Hst'].
    rewrite take_take, Nat.min_l in Hst' by lia.
    rewrite <- (open_stack_length text (S j') st); [lia | lia | done]. }
  pose proof (analyze_cases text Hne) as Hcases.
  destruct (getNestingLevels _ _ _) as [levels|e].
  - exfalso. destruct Hcases as (_ & _ & Hpos & _).
    specialize (Hpos j Hj). lia.
  - destruct Hcases as [(j0 & Hj0 & -> & Hneg0 & Hbefore0) | (Hpos & _)].
    + destruct (decide (j0 = j)) as [->|Hne']; [done|]. exfalso.
      destruct (decide (j0 < j)%nat).
      * specialize (Hbefore j0 ltac:(lia)). lia.
      * specialize (Hbefore0 j ltac:(lia)). lia.
    + exfalso. specialize (Hpos j Hj). lia.
Qed.

Lemma first_unmatched_close_reported_witness :
  open_stack (take 2 (lit "[]][")) = Some []
  ∧ lit "[]][" !! 2%nat = Some (ch "]")
  ∧ getNestingLevels (lit "[]][") (lit "[") (lit "]")
    = Raise (UnmatchedClosingBracket (Z.of_nat 2)).
Proof.
  assert (H1 : open_stack (take 2 (lit "[]][")) = Some []) by reflexivity.
  assert (H2 : lit "[]][" !! 2%nat = Some (ch "]")) by reflexivity.
  split; [exact H1|]. split; [exact H2|].
  exact (first_unmatched_close_reported (lit "[]][") 2 H1 H2).
Defined.

(** X10.  The depths of a validated text are never negative, and the last
    one is 0. *)
Theorem depths_nonneg_end_zero (text : str) (levels : list Z) :
  validated text levels →
  Forall (λ d, 0 ≤ d) levels ∧ last levels = Some 0.
Proof.
  intros Hval.
  destruct (validated_depths _ _ Hval) as (Hne & Hbal & Hlen & Hlev).
  destruct (balanced_depths text Hbal) as [Hpos Hzero]. split.
  - apply Forall_lookup. intros j d Hd.
    assert (Hj : (j < length text)%nat).
    { rewrite <- Hlen. by eapply lookup_lt_Some. }
    rewrite Hlev in Hd by done. injection Hd as <-. by apply Hpos.
  - rewrite last_lookup, Hlen.
    destruct (length text) as [|n] eqn:Hn; [by destruct text|].
    cbn [Nat.pred]. rewrite Hlev by lia.
    by rewrite <- Hn, firstn_all, Hzero.
Qed.

Lemma depths_nonneg_end_zero_witness :
  validated (lit "+[++[+>]]") [0; 1; 1; 1; 2; 2; 2; 1; 0]
  ∧ Forall (λ d, 0 ≤ d) [0; 1; 1; 1; 2; 2; 2; 1; 0]
  ∧ last [0; 1; 1; 1; 2; 2; 2; 1; 0] = Some 0.
Proof.
  assert (H : validated (lit "+[++[+>]]") [0; 1; 1; 1; 2; 2; 2; 1; 0])
    by reflexivity.
  split; [exact H|].
  exact (depths_nonneg_end_zero _ _ H).
Defined.

Lemma for_each_fixed {S} (body : nat → S → result S) (s : S) r :
  (∀ i, i ∈ r → body i s = Ok s) → for_each r body s = Ok s.
Proof.
  induction r as [|i r IH]; intros Hbody; [done|].
  cbn [for_each]. rewrite Hbody by apply list_elem_of_here.
  cbn [mbind result_bind]. apply IH. intros j Hj.
  apply Hbody. by apply list_elem_of_further.
Qed.

(** X19.  The brackets passed to [getNestingLevels] are compared with
    single characters: when neither [opening] nor [closing] is a string
    of exactly one character, no character of the text is ever a bracket
    and every non-empty text is accepted with depth 0 throughout. *)
Theorem long_brackets_never_match (text opening closing : str) :
  text ≠ [] → length opening ≠ 1%nat → length closing ≠ 1%nat →
  getNestingLevels text opening closing = Ok (replicate (length text) 0).
Proof.
  intros Hne Hopen Hclose. unfold getNestingLevels.
  rewrite bool_decide_eq_false_2 by (by destruct text).
  rewrite for_each_fixed; [done|].
  intros i Hi. unfold range in Hi. apply elem_of_seq in Hi.
  destruct (lookup_lt_is_Some_2 text i) as [c Hc]; [lia|].
  unfold getNestingLevels_body. rewrite getitem_nat, Hc.
  cbn [mbind result_bind].
  rewrite (bool_decide_eq_false_2 ([c] = opening)) by (by intros <-).
  rewrite (bool_decide_eq_false_2 ([c] = closing)) by (by intros <-).
  cbn [depth lastopen depths].
  rewrite bool_decide_eq_false_2 by lia.
  rewrite setitem_nat by (rewrite length_replicate; lia).
  cbn [mbind result_bind]. rewrite list_insert_id; [done|].
  apply lookup_replicate_2. lia.
Qed.

Lemma long_brackets_never_match_witness :
  lit "(()" ≠ [] ∧ length (lit "((") ≠ 1%nat ∧ length (lit "))") ≠ 1%nat
  ∧ getNestingLevels (lit "(()") (lit "((") (lit "))")
    = Ok (replicate (length (lit "(()")) 0).
Proof.
  assert (H1 : lit "(()" ≠ []) by (vm_compute; discriminate).
  assert (H2 : length (lit "((") ≠ 1%nat) by (simpl; lia).
  assert (H3 : length (lit "))") ≠ 1%nat) by (simpl; lia).
  split; [exact H1|]. split; [exact H2|]. split; [exact H3|].
  exact (long_brackets_never_match (lit "(()") (lit "((") (lit "))")
           H1 H2 H3).
Defined.

End AnalyzerLaws.

(** ** Laws of the jump resolver *)

Module JumpLaws.
Import DepthFacts JumpFacts.

Lemma delta_negative c : delta c < 0 → c = ch "]".
Proof.
  unfold delta. destruct (is_open c); destruct (is_close c) eqn:Hc;
    try lia.
  intros _. by apply bool_decide_eq_true_1 in Hc.
Qed.

(** Every open bracket of a validated text has a close bracket as its
    partner. *)
Lemma open_bracket_partner text levels o :
  validated text levels → text !! o = Some (ch "[") →
  ∃ c, (o < c)%nat ∧ text !! c = Some (ch "]")
       ∧ matching_open text c = Some o.
Proof.
  intros Hval Ho.
  destruct (validated_depths _ _ Hval) as (Hne & Hbal & Hlen & Hlev).
  destruct (balanced_depths text Hbal) as [Hpos Hzero].
  assert (Holen : (o < length text)%nat) by by eapply lookup_lt_Some.
  pose proof (depth_after_take_S _ _ _ Ho) as HDo.
  change (delta (ch "[")) with 1 in HDo.
  assert (HDo0 : 0 ≤ depth_after (take o text)).
  { destruct o as [|o']; [by rewrite take_0 | apply Hpos; lia]. }
  assert (Hlo : levels !! o = Some (depth_after (take o text) + 1)).
  { rewrite Hlev by done. by rewrite HDo. }
  destruct (findLevelClosing_cases levels o _ Hlo)
    as [(j & x & Hj & Hx & Hlt & Hbefore & _) | (Hnone & _)].
  - assert (Hjlen : (j < length text)%nat) by lia.
    destruct (lookup_lt_is_Some_2 text j Hjlen) as [cj Hcj].
    pose proof (depth_after_take_S _ _ _ Hcj) as HDj.
    rewrite Hlev in Hx by done. injection Hx as <-.
    assert (HDjge : depth_after (take o text) + 1 ≤ depth_after (take j text)).
    { destruct (decide (j = S o)) as [->|Hne']; [lia|].
      apply (Hbefore (j - 1)%nat); [lia|].
      rewrite Hlev by lia. by replace (S (j - 1)) with j by lia. }
    assert (Hclose : cj = ch "]") by (apply delta_negative; lia).
    subst cj. change (delta (ch "]")) with (-1) in HDj.
    destruct (close_bracket_partner text levels j Hval Hcj)
      as (o' & level & Hmatch & Hoj & Hto' & Hlj & Hlo' & HDo' & Hdeep).
    rewrite Hlev in Hlj by done. injection Hlj as Hlevel.
    exists j. split; [lia|]. split; [done|]. rewrite Hmatch. f_equal.
    destruct (decide (o' = o)) as [|Hne']; [done|]. exfalso.
    destruct (decide (o' < o)%nat).
    + assert (Hprev : levels !! (o - 1)%nat
                      = Some (depth_after (take o text))).
      { rewrite Hlev by lia. by replace (S (o - 1)) with o by lia. }
      specialize (Hdeep (o - 1)%nat _ ltac:(lia) Hprev). lia.
    + destruct (decide (o' = S o)) as [->|Hne'']; [lia|].
      assert (Hprev : levels !! (o' - 1)%nat
                      = Some (depth_after (take o' text))).
      { rewrite Hlev by lia. by replace (S (o' - 1)) with o' by lia. }
      specialize (Hbefore (o' - 1)%nat _ ltac:(lia) Hprev). lia.
  - exfalso.
    destruct (length text) as [|n] eqn:Hn; [lia|].
    assert (Hlast : levels !! n = Some 0).
    { rewrite Hlev by lia. by rewrite <- Hn, firstn_all, Hzero. }
    destruct (decide (n = o)) as [->|Hne'].
    + rewrite Hlo in Hlast. injection Hlast as Hlast. lia.
    + specialize (Hnone n 0 ltac:(lia) Hlast). lia.
Qed.

(** X11.  On a validated text the forward jump never fails: from an open
    bracket at [o], [findLevelClosing] returns the position just after
    the close bracket that matches it. *)
Theorem forward_jump_total (text : str) (levels : list Z) (o : nat) :
  validated text levels → text !! o = Some (ch "[") →
  ∃ c, (o < c)%nat ∧ text !! c = Some (ch "]")
       ∧ matching_open text c = Some o
       ∧ findLevelClosing levels o = Ok (S c).
Proof.
  intros Hval Ho.
  destruct (open_bracket_partner text levels o Hval Ho)
    as (c & Hoc & Hc & Hmatch).
  exists c. do 3 (split; [done|]).
  by destruct (jump_pair text levels c o Hval Hc Hmatch) as (-> & _).
Qed.

Lemma forward_jump_total_witness :
  validated (lit "[[]]") [1; 2; 1; 0]
  ∧ lit "[[]]" !! 0%nat = Some (ch "[")
  ∧ ∃ c, (0 < c)%nat ∧ lit "[[]]" !! c = Some (ch "]")
         ∧ matching_open (lit "[[]]") c = Some 0%nat
         ∧ findLevelClosing [1; 2; 1; 0] 0 = Ok (S c).
Proof.
  assert (H1 : validated (lit "[[]]") [1; 2; 1; 0]) by reflexivity.
  assert (H2 : lit "[[]]" !! 0%nat = Some (ch "[")) by reflexivity.
  split; [exact H1|]. split; [exact H2|].
  exact (forward_jump_total (lit "[[]]") [1; 2; 1; 0] 0 H1 H2).
Defined.

(** X12.  For an open bracket at position 2 or later of a validated text
    the two jumps are inverse to each other: the forward jump lands just
    after the matching close bracket [c], and the backward jump from [c]
    lands just after the open bracket. *)
Theorem round_trip_from_position_two (text : str) (levels : list Z)
    (o : nat) :
  validated text levels → text !! o = Some (ch "[") → (2 ≤ o)%nat →
  ∃ c, findLevelClosing levels o = Ok (S c)
       ∧ findLevelOpening levels c = Ok (S o).
Proof.
  intros Hval Ho Hpos.
  destruct (open_bracket_partner text levels o Hval Ho)
    as (c & Hoc & Hc & Hmatch).
  destruct (jump_pair text levels c o Hval Hc Hmatch) as (Hfwd & Hbwd & _).
  exists c. split; [done | by apply Hbwd].
Qed.

Lemma round_trip_from_position_two_witness :
  validated (lit "++[-]") [0; 0; 1; 1; 0]
  ∧ lit "++[-]" !! 2%nat = Some (ch "[") ∧ (2 ≤ 2)%nat
  ∧ ∃ c, findLevelClosing [0; 0; 1; 1; 0] 2 = Ok (S c)
         ∧ findLevelOpening [0; 0; 1; 1; 0] c = Ok 3%nat.
Proof.
  assert (H1 : validated (lit "++[-]") [0; 0; 1; 1; 0]) by reflexivity.
  assert (H2 : lit "++[-]" !! 2%nat = Some (ch "[")) by reflexivity.
  assert (H3 : (2 ≤ 2)%nat) by lia.
  split; [exact H1|]. split; [exact H2|]. split; [exact H3|].
  exact (round_trip_from_position_two (lit "++[-]") [0; 0; 1; 1; 0] 2
           H1 H2 H3).
Defined.

(** X13.  [findLevelClosing] on any list of depths, validated or not:
    outside the list it raises [IndexError]; inside, it returns one past
    the first later position whose depth is below the depth at [i], and
    raises [UnmatchedOpeningBracket i] when no later position is. *)
Theorem forward_scan_contract (levels : list Z) (i : nat) :
  match levels !! i with
  | None => findLevelClosing levels i = Raise IndexError
  | Some level =>
      (∃ j x, (i < j < length levels)%nat ∧ levels !! j = Some x
              ∧ x < level
              ∧ (∀ g y, (i < g < j)%nat → levels !! g = Some y → level ≤ y)
              ∧ findLevelClosing levels i = Ok (j + 1)%nat)
      ∨ ((∀ g y, (i < g)%nat → levels !! g = Some y → level ≤ y)
         ∧ findLevelClosing levels i
           = Raise (UnmatchedOpeningBracket (Z.of_nat i)))
  end.
Proof.
  destruct (levels !! i) as [level|] eqn:Hl.
  - by apply findLevelClosing_cases.
  - unfold findLevelClosing. by rewrite getitem_nat, Hl.
Qed.

End JumpLaws.

(** ** Laws of the execution engine *)

Module EngineLaws.
Import Mem MemFacts IOFacts DepthFacts JumpFacts EngineFacts TapeLaws.

(** X14.  Nothing runs before the whole program is checked: when the
    script is empty or its brackets are not balanced, [brainfuck] on the
    caller's tape raises the analyzer's exception and leaves the tape, the
    input and the output as they were, whatever the first characters of
    the script are.  A [memory] argument that is no [Memory] is refused
    even before that. *)
Theorem invalid_program_runs_nothing
    (files : str → option (list str)) (fuel : nat) (text : str)
    (memsize : Z) (w : world) :
  brainfuck files fuel text NotAMemory memsize w
    = (Raise InvalidMemoryArgument, w)
  ∧ (¬ (script_of files text ≠ [] ∧ balanced (script_of files text)) →
     ∃ e, brainfuck files fuel text MemoryGiven memsize w = (Raise e, w)
          ∧ (e = EmptyProgram ∨ (∃ p, e = UnmatchedClosingBracket p)
             ∨ (∃ p, e = UnmatchedOpeningBracket p))).
Proof.
  split; [done|]. intros Hbad.
  unfold brainfuck. fold (script_of files text).
  unfold mbind, M_bind, lift, mret, M_ret.
  destruct (decide (script_of files text = [])) as [Hnil|Hne].
  { rewrite Hnil. exists EmptyProgram. split; [done | by left]. }
  pose proof (analyze_cases _ Hne) as Hcases.
  destruct (getNestingLevels _ _ _) as [levels|e] eqn:Hrun.
  - exfalso. apply Hbad.
    destruct (validated_depths _ _ Hrun) as (? & ? & _). done.
  - exists e. split; [done|]. right.
    destruct Hcases as [(j & _ & -> & _) | (_ & _ & z & -> & _)]; eauto.
Qed.

Lemma invalid_program_runs_nothing_witness :
  ¬ (script_of no_files (lit "+]") ≠ []
     ∧ balanced (script_of no_files (lit "+]")))
  ∧ ∃ e, brainfuck no_files 5 (lit "+]") MemoryGiven 1 (fresh_world [])
         = (Raise e, fresh_world []).
Proof.
  assert (H : ¬ (script_of no_files (lit "+]") ≠ []
                 ∧ balanced (script_of no_files (lit "+]")))).
  { intros [_ Hbal]. vm_compute in Hbal. discriminate. }
  split; [exact H|].
  destruct (proj2 (invalid_program_runs_nothing no_files 5 (lit "+]") 1
                     (fresh_world [])) H) as (e & Hrun & _).
  exists e. exact Hrun.
Defined.

(** One round on a character that is no bracket moves on by one, or
    raises. *)
Lemma dispatch_straight levels script i w c l :
  levels !! i = Some l → script !! i = Some c →
  c ≠ ch "[" → c ≠ ch "]" →
  ∃ w', dispatch levels script i w = (Ok (S i), w')
        ∨ ∃ e, dispatch levels script i w = (Raise e, w').
Proof.
  intros Hl Hc Hopen Hclose.
  unfold dispatch, mbind, M_bind, lift, mret, M_ret, raise.
  rewrite !getitem_nat, Hl, Hc.
  repeat case_bool_decide; try done;
    try (match goal with
         | |- context [match ?m w with _ => _ end] =>
             destruct (m w) as [[u|e] w']
         end; eauto).
  eauto.
Qed.

Lemma while_loop_straight levels script :
  straight_line script → length levels = length script →
  ∀ fuel i w, (length script - i ≤ fuel)%nat →
    (while_loop fuel levels script i w).1 ≠ Ok OutOfFuel.
Proof.
  intros Hline Hlen. induction fuel as [|fuel IH]; intros i w Hfuel.
  - cbn [while_loop]. by rewrite bool_decide_eq_false_2 by lia.
  - cbn [while_loop]. case_bool_decide as Hi; [|done].
    destruct (lookup_lt_is_Some_2 script i Hi) as [c Hc].
    destruct (lookup_lt_is_Some_2 levels i) as [l Hl]; [lia|].
    pose proof (proj1 (Forall_lookup _ _) Hline i c Hc) as [Hopen Hclose].
    unfold mbind, M_bind.
    destruct (dispatch_straight levels script i w c l Hl Hc Hopen Hclose)
      as (w' & [-> | (e & ->)]); [|done].
    apply IH. lia.
Qed.

(** X15.  A script without brackets always comes to an end: with as many
    rounds as it has characters the run finishes or raises, it never
    needs more. *)
Theorem straight_line_terminates
    (files : str → option (list str)) (fuel : nat) (text : str)
    (memory : memory_arg) (memsize : Z) (w : world) :
  straight_line (script_of files text) →
  (length (script_of files text) ≤ fuel)%nat →
  (brainfuck files fuel text memory memsize w).1 ≠ Ok OutOfFuel.
Proof.
  intros Hline Hfuel. unfold brainfuck. fold (script_of files text).
  unfold mbind, M_bind, lift, mret, M_ret, get, put, raise.
  destruct (getNestingLevels _ _ _) as [levels|e] eqn:Hrun.
  - destruct (validated_depths _ _ Hrun) as (_ & _ & Hlen & _).
    destruct memory; [| |done];
      apply while_loop_straight; (done || lia).
  - by destruct memory.
Qed.

Lemma straight_line_terminates_witness :
  straight_line (script_of no_files (lit "+>.")) ∧
  (length (script_of no_files (lit "+>.")) ≤ 3)%nat ∧
  (brainfuck no_files 3 (lit "+>.") MemoryOmitted 2 (fresh_world [])).1
  ≠ Ok OutOfFuel.
Proof.
  assert (H1 : straight_line (script_of no_files (lit "+>."))).
  { repeat constructor; vm_compute; discriminate. }
  assert (H2 : (length (script_of no_files (lit "+>.")) ≤ 3)%nat)
    by (simpl; lia).
  split; [exact H1|]. split; [exact H2|].
  exact (straight_line_terminates no_files 3 (lit "+>.") MemoryOmitted 2
           (fresh_world []) H1 H2).
Defined.

(** X16.  The loop of the language, for a matched pair of a validated
    script, the open bracket at [o] and the close bracket at [c].  No
    bracket touches the world.  At the open bracket the engine skips to
    just after [c] when the current value is 0 and steps into the body
    otherwise; at the close bracket it falls through when the value is 0,
    and otherwise goes back to just after [o], but only when [o] is at
    position 2 or later: for [o] at 0 or 1 it raises
    [UnmatchedClosingBracket c]. *)
Theorem bracket_dispatch (script : str) (levels : list Z) (o c : nat)
    (w : world) :
  validated script levels → script !! c = Some (ch "]") →
  matching_open script c = Some o →
  dispatch levels script o w
    = (Ok (if bool_decide (value (mem w) = 0) then S c else S o), w)
  ∧ dispatch levels script c w
    = (if bool_decide (value (mem w) = 0) then Ok (S c)
       else if bool_decide (2 ≤ o)%nat then Ok (S o)
       else Raise (UnmatchedClosingBracket (Z.of_nat c)), w).
Proof.
  intros Hval Hc Hmatch.
  destruct (close_bracket_partner script levels c Hval Hc)
    as (o' & level & Hmatch' & Hoc & Ho & Hlc & Hlo & _).
  assert (o' = o) as -> by congruence.
  destruct (jump_pair script levels c o Hval Hc Hmatch)
    as (Hfwd & Hbwd & Hfail).
  unfold dispatch, mbind, M_bind, lift, mret, M_ret, gets.
  rewrite !getitem_nat, Hlc, Hlo, Hc, Ho, Hfwd. split.
  - change (bool_decide (ch "[" = ch "+")) with false.
    change (bool_decide (ch "[" = ch "-")) with false.
    change (bool_decide (ch "[" = ch ">")) with false.
    change (bool_decide (ch "[" = ch "<")) with false.
    change (bool_decide (ch "[" = ch ".")) with false.
    change (bool_decide (ch "[" = ch ",")) with false.
    change (bool_decide (ch "[" = ch "[")) with true.
    cbv beta iota. by case_bool_decide.
  - change (bool_decide (ch "]" = ch "+")) with false.
    change (bool_decide (ch "]" = ch "-")) with false.
    change (bool_decide (ch "]" = ch ">")) with false.
    change (bool_decide (ch "]" = ch "<")) with false.
    change (bool_decide (ch "]" = ch ".")) with false.
    change (bool_decide (ch "]" = ch ",")) with false.
    change (bool_decide (ch "]" = ch "[")) with false.
    change (bool_decide (ch "]" = ch "]")) with true.
    cbv beta iota.
    destruct (decide (value (mem w) = 0)) as [Hz|Hnz].
    + rewrite (bool_decide_eq_true_2 (value (mem w) = 0)) by done.
      by rewrite bool_decide_eq_false_2 by (by intros ?).
    + rewrite (bool_decide_eq_false_2 (value (mem w) = 0)) by done.
      rewrite bool_decide_eq_true_2 by done.
      case_bool_decide; [by rewrite Hbwd | by rewrite Hfail by lia].
Qed.

Lemma bracket_dispatch_witness :
  validated (lit "++[-]") [0; 0; 1; 1; 0]
  ∧ lit "++[-]" !! 4%nat = Some (ch "]")
  ∧ matching_open (lit "++[-]") 4 = Some 2%nat
  ∧ dispatch [0; 0; 1; 1; 0] (lit "++[-]") 4
      {| mem := {| cells := [1]; pointer := 0; value := 1 |};
         stdin := []; stdout := [] |}
    = (Ok 3%nat,
       {| mem := {| cells := [1]; pointer := 0; value := 1 |};
          stdin := []; stdout := [] |}).
Proof.
  assert (H1 : validated (lit "++[-]") [0; 0; 1; 1; 0]) by reflexivity.
  assert (H2 : lit "++[-]" !! 4%nat = Some (ch "]")) by reflexivity.
  assert (H3 : matching_open (lit "++[-]") 4 = Some 2%nat) by reflexivity.
  split; [exact H1|]. split; [exact H2|]. split; [exact H3|].
  exact (proj2 (bracket_dispatch (lit "++[-]") [0; 0; 1; 1; 0] 2 4
           {| mem := {| cells := [1]; pointer := 0; value := 1 |};
              stdin := []; stdout := [] |} H1 H2 H3)).
Defined.

(** *** The effects of a run *)

Lemma effects_refl w : effects_ordered w w.
Proof.
  split; [reflexivity|]. split; [reflexivity|]. split; [reflexivity|auto].
Qed.

Lemma effects_trans w1 w2 w3 :
  effects_ordered w1 w2 → effects_ordered w2 w3 → effects_ordered w1 w3.
Proof.
  intros (Ho1 & Hi1 & Hl1 & Ht1) (Ho2 & Hi2 & Hl2 & Ht2).
  split; [by etrans|]. split; [by etrans|].
  split; [congruence | auto].
Qed.

Lemma on_mem_snd {A} (f : M Memory A) w :
  (on_mem f w).2
  = {| mem := (f (mem w)).2; stdin := stdin w; stdout := stdout w |}.
Proof. unfold on_mem. by destruct (f (mem w)). Qed.

Lemma on_mem_effects c w : effects_ordered w (on_mem (run_call c) w).2.
Proof.
  rewrite on_mem_snd. split; [reflexivity|]. split; [reflexivity|].
  cbn [mem].
  split; [apply run_call_length | apply run_call_tape_ok].
Qed.

Lemma print_effects w : effects_ordered w (IO.print w).2.
Proof.
  destruct (print_cases w) as [[s ->] | ->]; [|apply effects_refl].
  split; [by apply prefix_app_r|].
  split; [reflexivity|]. split; [reflexivity|auto].
Qed.

Lemma read_effects w : effects_ordered w (IO.read w).2.
Proof.
  destruct (stdin w) as [|[|c line] rest] eqn:Hin.
  - rewrite read_eof by done. apply effects_refl.
  - rewrite (read_empty w rest) by done. split; [reflexivity|].
    split; [|split; [reflexivity|auto]].
    cbn [snd stdin]. rewrite Hin. by apply suffix_cons_r.
  - rewrite (read_line w c line rest) by done.
    eapply effects_trans; [|apply (on_mem_effects (CallSetCellTo c))].
    split; [reflexivity|]. split; [|split; [reflexivity|auto]].
    cbn [stdin]. rewrite Hin. by apply suffix_cons_r.
Qed.

Lemma then_ret_snd {A B} (m : M world A) (b : B) w :
  ((m;; mret b) w).2 = (m w).2.
Proof. unfold mbind, M_bind, mret, M_ret. by destruct (m w) as [[?|?] ?]. Qed.

Lemma dispatch_effects levels script i w :
  effects_ordered w (dispatch levels script i w).2.
Proof.
  unfold dispatch. unfold mbind at 1. unfold M_bind at 1. unfold lift at 1.
  destruct (getitem levels _); [|apply effects_refl].
  unfold mbind at 1. unfold M_bind at 1. unfold lift at 1.
  destruct (getitem script _) as [c|]; [|apply effects_refl].
  repeat case_bool_decide; rewrite ?then_ret_snd.
  - apply (on_mem_effects (CallSetValue 1)).
  - apply (on_mem_effects (CallSetValue (-1))).
  - apply (on_mem_effects (CallSetPointer 1)).
  - apply (on_mem_effects (CallSetPointer (-1))).
  - apply print_effects.
  - apply read_effects.
  - unfold mbind, M_bind, gets, lift, mret, M_ret.
    case_bool_decide; [|apply effects_refl].
    destruct (findLevelClosing _ _); apply effects_refl.
  - unfold mbind, M_bind, gets, lift, mret, M_ret.
    case_bool_decide; [|apply effects_refl].
    destruct (findLevelOpening _ _); apply effects_refl.
  - apply effects_refl.
Qed.

Lemma while_loop_effects levels script fuel : ∀ i w,
  effects_ordered w (while_loop fuel levels script i w).2.
Proof.
  induction fuel as [|fuel IH]; intros i w; cbn [while_loop].
  - case_bool_decide; apply effects_refl.
  - case_bool_decide; [|apply effects_refl].
    pose proof (dispatch_effects levels script i w) as Hstep.
    unfold mbind, M_bind.
    destruct (dispatch levels script i w) as [[i'|e] w']; [|done].
    eapply effects_trans; [exact Hstep | apply IH].
Qed.

(** X17.  What a run can do to the world, whether it finishes, raises or
    is cut short: output is only appended, input is only consumed from
    the front, the tape keeps its length, and a tape without negative
    cell or pointer stays so.  The world it starts from is the caller's,
    with a fresh tape when [memory] is omitted. *)
Theorem run_effects_ordered
    (files : str → option (list str)) (fuel : nat) (text : str)
    (memory : memory_arg) (memsize : Z) (w : world) :
  effects_ordered (world_at_start memory memsize w)
    (brainfuck files fuel text memory memsize w).2.
Proof.
  unfold brainfuck. fold (script_of files text).
  unfold mbind, M_bind, lift, mret, M_ret, get, put, raise.
  destruct memory; cbn [world_at_start];
    try (destruct (getNestingLevels _ _ _);
         [apply while_loop_effects | apply effects_refl]).
  apply effects_refl.
Qed.

(** *** Scripts read from a file *)






(** *** Scripts without brackets *)

Lemma straight_line_stack l : ∀ pos st,
  straight_line l → open_stack_from pos st l = Some st.
Proof.
  induction l as [|c l IH]; intros pos st Hline; [done|].
  apply Forall_cons in Hline as [[Hopen Hclose] Hline].
  cbn [open_stack_from]. unfold stack_step, is_open, is_close.
  rewrite !bool_decide_eq_false_2 by done. cbn. by apply IH.
Qed.

Lemma straight_line_validated script :
  script ≠ [] → straight_line script →
  ∃ levels, validated script levels ∧ length levels = length script.
Proof.
  intros Hne Hline.
  destruct (AnalyzerLaws.balanced_validated script Hne) as [levels Hval].
  { by apply straight_line_stack. }
  exists levels. split; [done|].
  by destruct (validated_depths _ _ Hval) as (_ & _ & ? & _).
Qed.

Lemma dispatch_exec levels script i w c l :
  levels !! i = Some l → script !! i = Some c →
  c ≠ ch "[" → c ≠ ch "]" →
  dispatch levels script i w = (exec_char c;; mret (S i)) w.
Proof.
  intros Hl Hc Hopen Hclose.
  unfold dispatch, exec_char. unfold mbind at 1 2. unfold M_bind at 1 2.
  unfold lift. rewrite !getitem_nat, Hl, Hc.
  by repeat case_bool_decide.
Qed.

Lemma while_loop_exec levels script :
  straight_line script → length levels = length script →
  ∀ fuel i w, (length script - i ≤ fuel)%nat →
    while_loop fuel levels script i w
    = (exec_chars (drop i script);; mret Finished) w.
Proof.
  intros Hline Hlen.
  assert (Hend : ∀ i w, (length script ≤ i)%nat →
    (exec_chars (drop i script);; mret Finished) w = (Ok Finished, w)).
  { intros i w Hi. by rewrite drop_ge by done. }
  induction fuel as [|fuel IH]; intros i w Hfuel; cbn [while_loop].
  - rewrite bool_decide_eq_false_2 by lia. by rewrite Hend by lia.
  - case_bool_decide as Hi; [|by rewrite Hend by lia].
    destruct (lookup_lt_is_Some_2 script i Hi) as [c Hc].
    destruct (lookup_lt_is_Some_2 levels i) as [l Hl]; [lia|].
    pose proof (proj1 (Forall_lookup _ _) Hline i c Hc) as [Hopen Hclose].
    rewrite (drop_S _ _ _ Hc). cbn [exec_chars].
    unfold mbind at 1. unfold M_bind at 1.
    rewrite (dispatch_exec levels script i w c l Hl Hc Hopen Hclose).
    unfold mbind, M_bind, mret, M_ret in *.
    destruct (exec_char c w) as [[u|e] w']; [|done].
    apply IH. lia.
Qed.

Lemma exec_chars_app s1 s2 w :
  exec_chars (s1 ++ s2) w = (exec_chars s1;; exec_chars s2) w.
Proof.
  revert w. induction s1 as [|c s1 IH]; intros w; [done|].
  cbn [app exec_chars]. unfold mbind, M_bind in *.
  destruct (exec_char c w) as [[u|e] w']; [|done]. apply IH.
Qed.

Lemma brainfuck_straight files fuel text memsize w :
  files text = None → text ≠ [] → straight_line text →
  (length text ≤ fuel)%nat →
  brainfuck files fuel text MemoryGiven memsize w
  = (exec_chars text;; mret Finished) w.
Proof.
  intros Hfile Hne Hline Hfuel.
  assert (Hscript : script_of files text = text).
  { unfold script_of. by rewrite Hfile. }
  destruct (straight_line_validated text Hne Hline) as (levels & Hval & Hlen).
  rewrite (brainfuck_loop files fuel text MemoryGiven memsize w levels);
    [|done | by rewrite Hscript].
  rewrite Hscript. cbn [world_at_start].
  rewrite (while_loop_exec levels text Hline Hlen) by lia.
  by rewrite drop_0.
Qed.

(** X20.  Runs on one tape compose: for scripts without brackets that do
    not name files, running [s1] and then [s2] on the same [Memory] is
    running [s1 ++ s2] on it: the same outcome, tape, input and output,
    also when a character raises on the way. *)
Theorem straight_runs_compose
    (files : str → option (list str)) (fuel : nat) (s1 s2 : str)
    (memsize : Z) (w : world) :
  files s1 = None → files s2 = None → files (s1 ++ s2) = None →
  s1 ≠ [] → s2 ≠ [] → straight_line s1 → straight_line s2 →
  (length (s1 ++ s2) ≤ fuel)%nat →
  brainfuck files fuel (s1 ++ s2) MemoryGiven memsize w
  = (brainfuck files fuel s1 MemoryGiven memsize;;
     brainfuck files fuel s2 MemoryGiven memsize) w.
Proof.
  intros Hf1 Hf2 Hf12 Hne1 Hne2 Hl1 Hl2 Hfuel.
  rewrite length_app in Hfuel.
  rewrite brainfuck_straight;
    [| done | by destruct s1 | by apply Forall_app
     | rewrite length_app; lia].
  unfold mbind, M_bind.
  rewrite (brainfuck_straight files fuel s1) by (done || lia).
  rewrite exec_chars_app. unfold mbind, M_bind, mret, M_ret.
  destruct (exec_chars s1 w) as [[u|e] w1]; [|done].
  rewrite (brainfuck_straight files fuel s2) by (done || lia).
  by unfold mbind, M_bind, mret, M_ret.
Qed.

Lemma straight_runs_compose_witness :
  no_files (lit "+++") = None ∧ no_files (lit ".") = None
  ∧ no_files (lit "+++" ++ lit ".") = None
  ∧ lit "+++" ≠ [] ∧ lit "." ≠ []
  ∧ straight_line (lit "+++") ∧ straight_line (lit ".")
  ∧ (length (lit "+++" ++ lit ".") ≤ 4)%nat
  ∧ brainfuck no_files 4 (lit "+++" ++ lit ".") MemoryGiven 1
      {| mem := init 1; stdin := []; stdout := [] |}
    = (brainfuck no_files 4 (lit "+++") MemoryGiven 1;;
       brainfuck no_files 4 (lit ".") MemoryGiven 1)
        {| mem := init 1; stdin := []; stdout := [] |}.
Proof.
  assert (H1 : no_files (lit "+++") = None) by reflexivity.
  assert (H2 : no_files (lit ".") = None) by reflexivity.
  assert (H3 : no_files (lit "+++" ++ lit ".") = None) by reflexivity.
  assert (H4 : lit "+++" ≠ []) by (vm_compute; discriminate).
  assert (H5 : lit "." ≠ []) by (vm_compute; discriminate).
  assert (H6 : straight_line (lit "+++")).
  { repeat constructor; vm_compute; discriminate. }
  assert (H7 : straight_line (lit ".")).
  { repeat constructor; vm_compute; discriminate. }
  assert (H8 : (length (lit "+++" ++ lit ".") ≤ 4)%nat) by (simpl; lia).
  do 8 (split; [assumption|]).
  exact (straight_runs_compose no_files 4 (lit "+++") (lit ".") 1
           {| mem := init 1; stdin := []; stdout := [] |}
           H1 H2 H3 H4 H5 H6 H7 H8).
Defined.

End EngineLaws.
